(** * N-step Advantage Actor-Critic objective (agentnet/learning/a2c_n_step.py)

    A shallow embedding of [get_elementwise_objective] and of the helpers it
    imports, followed by the properties of the elementwise loss.

    Tensors are lists of rows.  Theano's [floatX] cells are idealised as real
    numbers extended with one absorbing non-finite element, which stands for
    the IEEE values [inf], [-inf] and [nan]: [T.log] leaves the reals at
    arguments that are not positive, and every arithmetic operation of the
    objective ([+], [-], [*]) maps a non-finite operand to a non-finite
    result.  Rounding and overflow of tensor arithmetic are not modelled;
    the cast of the constant [min_proba] to [floatX] is.

    The code is written once over a [Scalar] interface.  The instance [val]
    gives the numerical value of a tensor; the instance [dual] pairs each value
    with its sensitivity to an upstream perturbation, which is what
    [consider_constant] acts on. *)

From Stdlib Require Import Reals Lra List ZArith Bool Lia.
Import ListNotations.

Set Implicit Arguments.

(** ** Errors *)

Inductive error : Type :=
| ShapeMismatch
| InvalidConfiguration
| IndexOutOfRange.

Inductive result (A : Type) : Type :=
| Ok (a : A)
| Err (e : error).

Arguments Ok {A} a.
Arguments Err {A} e.

Definition bind {A B : Type} (c : result A) (f : A -> result B) : result B :=
  match c with
  | Ok a => f a
  | Err e => Err e
  end.

Notation "x <- c ;; k" := (bind c (fun x => k))
  (at level 61, c at next level, right associativity).

Definition of_option {A : Type} (e : error) (o : option A) : result A :=
  match o with
  | Some a => Ok a
  | None => Err e
  end.

(** ** Scalars *)

Inductive val : Type :=
| Fin (r : R)
| NonFin.

Class Scalar (A : Type) : Type := {
  konst : R -> A;
  add : A -> A -> A;
  sub : A -> A -> A;
  mul : A -> A -> A;
  neg : A -> A;
  T_log : A -> A;
  (* T.eq(x, 0) *)
  is_zero : A -> bool;
  (* value of one cell under agentnet.utils.grad.consider_constant *)
  constant_cell : A -> A
}.

Definition Rzero (x : R) : bool :=
  if Req_dec_T x 0 then true else false.

Definition Rpositive (x : R) : bool :=
  if Rlt_dec 0 x then true else false.

Definition vadd (x y : val) : val :=
  match x, y with
  | Fin a, Fin b => Fin (a + b)
  | _, _ => NonFin
  end.

Definition vsub (x y : val) : val :=
  match x, y with
  | Fin a, Fin b => Fin (a - b)
  | _, _ => NonFin
  end.

Definition vmul (x y : val) : val :=
  match x, y with
  | Fin a, Fin b => Fin (a * b)
  | _, _ => NonFin
  end.

Definition vneg (x : val) : val :=
  match x with
  | Fin a => Fin (- a)
  | NonFin => NonFin
  end.

Definition vdiv (x y : val) : val :=
  match x, y with
  | Fin a, Fin b => if Rzero b then NonFin else Fin (a / b)
  | _, _ => NonFin
  end.

(** [log 0 = -inf] and [log x = nan] for [x < 0]. *)
Definition vlog (x : val) : val :=
  match x with
  | Fin a => if Rpositive a then Fin (ln a) else NonFin
  | NonFin => NonFin
  end.

Definition vis_zero (x : val) : bool :=
  match x with
  | Fin a => Rzero a
  | NonFin => false
  end.

#[export] Instance val_scalar : Scalar val := {
  konst := Fin;
  add := vadd;
  sub := vsub;
  mul := vmul;
  neg := vneg;
  T_log := vlog;
  is_zero := vis_zero;
  constant_cell := fun x => x
}.

(** A value together with its derivative along one upstream perturbation. *)
Record dual : Type := D { primal : val; tangent : val }.

(** Modelled from the spec: [consider_constant] lives in agentnet/utils/grad.py,
    which is absent.  Section 9: "the contract is purely: this subtree's
    gradient is defined to be zero"; the value is unchanged. *)
Definition dual_constant (x : dual) : dual := D (primal x) (Fin 0).

#[export] Instance dual_scalar : Scalar dual := {
  konst := fun r => D (Fin r) (Fin 0);
  add := fun x y => D (vadd (primal x) (primal y)) (vadd (tangent x) (tangent y));
  sub := fun x y => D (vsub (primal x) (primal y)) (vsub (tangent x) (tangent y));
  mul := fun x y =>
    D (vmul (primal x) (primal y))
      (vadd (vmul (tangent x) (primal y)) (vmul (primal x) (tangent y)));
  neg := fun x => D (vneg (primal x)) (vneg (tangent x));
  T_log := fun x => D (vlog (primal x)) (vdiv (tangent x) (primal x));
  is_zero := fun x => vis_zero (primal x);
  constant_cell := dual_constant
}.

(** The cast of a Python constant to [floatX], here float32: a magnitude up
    to half the smallest positive float32, [2^-150], becomes 0.  (Under
    float64 the bound is [2^-1075], below every positive Python float.) *)
Definition floatX_tiny : R := / 2 ^ 150.

Definition floatX (x : R) : R :=
  if Rle_dec (Rabs x) floatX_tiny then 0%R else x.

(** ** Tensors *)

Definition matrix (A : Type) : Type := list (list A).
Definition tensor3 (A : Type) : Type := list (list (list A)).

Definition cell {A : Type} (m : matrix A) (b t : nat) : option A :=
  match nth_error m b with
  | Some row => nth_error row t
  | None => None
  end.

(** Elementwise operations fail on operands of different shapes. *)
Fixpoint zip_with {A B C : Type} (f : A -> B -> result C)
    (xs : list A) (ys : list B) : result (list C) :=
  match xs, ys with
  | [], [] => Ok []
  | x :: xs', y :: ys' =>
      c <- f x y ;;
      cs <- zip_with f xs' ys' ;;
      Ok (c :: cs)
  | _, _ => Err ShapeMismatch
  end.

Definition elemwise {A B C : Type} (f : A -> B -> C)
    (x : matrix A) (y : matrix B) : result (matrix C) :=
  zip_with (zip_with (fun a b => Ok (f a b))) x y.

Definition map_matrix {A B : Type} (f : A -> B) (m : matrix A) : matrix B :=
  map (map f) m.

Definition shape {A : Type} (m : matrix A) : list nat := map (@length A) m.

Fixpoint map_result {A B : Type} (f : A -> result B) (xs : list A)
    : result (list B) :=
  match xs with
  | [] => Ok []
  | x :: xs' =>
      y <- f x ;;
      ys <- map_result f xs' ;;
      Ok (y :: ys)
  end.

(** ** Arguments with sentinel defaults *)

(** [is_alive]: the string ["always"] or a [batch,tick] mask. *)
Inductive liveness (A : Type) : Type :=
| Always
| Mask (alive : matrix A).

(** [state_values_after_end]: the string ["zeros"] or one value per row,
    read as [state_values_after_end[row, 0]]. *)
Inductive after_end (A : Type) : Type :=
| Zeros
| AfterEnd (after : matrix A).

(** [gamma_or_gammas]: a single value or an array [batch,tick]. *)
Inductive discount (A : Type) : Type :=
| Gamma (g : R)
| Gammas (gs : matrix A).

Arguments Always {A}.
Arguments Zeros {A}.
Arguments Gamma {A} g.

Section Objective.

Context {A : Type} `{Scalar A}.

(** ** Imported helpers (agentnet/learning/helpers.py) *)

(** Modelled from the spec: [get_action_Qvalues] is absent.  Section 4.2,
    step 1: gather [policy[row, time, actions[row, time]]]; an action index
    outside [0, num_actions) fails with IndexOutOfRange. *)
Definition get_action_Qvalues (policy : tensor3 A) (actions : matrix Z)
    : result (matrix A) :=
  zip_with
    (zip_with
       (fun probas a =>
          if (a <? 0)%Z then Err IndexOutOfRange
          else of_option IndexOutOfRange (nth_error probas (Z.to_nat a))))
    policy actions.

(** One time step of one trajectory, as the return estimator reads it. *)
Record step : Type := {
  st_value : A;
  st_reward : A;
  st_alive : bool;
  st_gamma : A
}.

(** Modelled from the spec: the recurrence of [get_n_step_value_reference],
    which is absent.  Section 4.1: past the last step the running value is the
    after-end value; a step adds its reward to the discounted value of the
    next step; after [n_steps] transitions the recursion is cut and the target
    state value at the window boundary is used directly; the accumulation
    stops at the first dead step, from which nothing is carried back.  [k] is
    the number of transitions left in the window, [None] when the window is
    unbounded.  [lookahead] is the running value taken over from the steps
    that follow. *)
Fixpoint lookahead (after : A) (k : option nat) (l : list step) : A :=
  match l with
  | [] => after
  | s :: rest =>
      match k with
      | Some O => st_value s
      | Some (S k') =>
          if st_alive s then
            add (st_reward s) (mul (st_gamma s) (lookahead after (Some k') rest))
          else konst 0
      | None =>
          if st_alive s then
            add (st_reward s) (mul (st_gamma s) (lookahead after None rest))
          else konst 0
      end
  end.

Definition n_step_return (after : A) (k : option nat) (l : list step) : A :=
  match l with
  | [] => after
  | s :: rest =>
      add (st_reward s)
        (mul (st_gamma s) (lookahead after (option_map Nat.pred k) rest))
  end.

Fixpoint row_reference (after : A) (k : option nat) (l : list step) : list A :=
  match l with
  | [] => []
  | s :: rest => n_step_return after k (s :: rest) :: row_reference after k rest
  end.

(** Modelled from the spec: section 4.1, "A non-positive n_steps fails with
    an InvalidConfiguration error". *)
Definition horizon (n_steps : option Z) : result (option nat) :=
  match n_steps with
  | None => Ok None
  | Some n =>
      if (n <=? 0)%Z then Err InvalidConfiguration else Ok (Some (Z.to_nat n))
  end.

Definition alive_flags (is_alive : liveness A) (rewards : matrix A) : matrix bool :=
  match is_alive with
  | Always => map_matrix (fun _ => true) rewards
  | Mask alive => map_matrix (fun a => negb (is_zero a)) alive
  end.

Definition discounts (gamma_or_gammas : discount A) (rewards : matrix A) : matrix A :=
  match gamma_or_gammas with
  | Gamma g => map_matrix (fun _ => konst g) rewards
  | Gammas gs => gs
  end.

Definition after_end_values (state_values_after_end : after_end A)
    (rewards : matrix A) : result (list A) :=
  match state_values_after_end with
  | Zeros => Ok (map (fun _ => konst 0) rewards)
  | AfterEnd after =>
      map_result (fun row => of_option ShapeMismatch (hd_error row)) after
  end.

(** Modelled from the spec: [get_n_step_value_reference] is absent.
    Section 4.1: every trajectory is processed independently by the backward
    recurrence above; mismatched shapes fail with ShapeMismatch and a
    non-positive [n_steps] with InvalidConfiguration. *)
Definition get_n_step_value_reference (state_values rewards : matrix A)
    (is_alive : liveness A) (n_steps : option Z)
    (optimal_state_values_after_end : after_end A)
    (gamma_or_gammas : discount A) : result (matrix A) :=
  k <- horizon n_steps ;;
  vr <- elemwise pair state_values rewards ;;
  ag <- elemwise pair (alive_flags is_alive rewards)
          (discounts gamma_or_gammas rewards) ;;
  steps <- elemwise
             (fun x y => Build_step (fst x) (snd x) (fst y) (snd y)) vr ag ;;
  after <- after_end_values optimal_state_values_after_end rewards ;;
  zip_with (fun row a => Ok (row_reference a k row)) steps after.

(** Modelled from the spec: [get_end_indicator] is absent.  Section 4.1: an
    index is an episode boundary when liveness goes from alive to dead right
    after it, or, with [force_end_at_t_max], when it is the last column. *)
Fixpoint end_indicator_row (force_end_at_t_max : bool) (alive : list A) : list A :=
  match alive with
  | [] => []
  | a :: rest =>
      match rest with
      | [] => [if force_end_at_t_max then konst 1 else konst 0]
      | a' :: _ =>
          (if negb (is_zero a) && is_zero a' then konst 1 else konst 0)
            :: end_indicator_row force_end_at_t_max rest
      end
  end.

Definition get_end_indicator (is_alive : matrix A) (force_end_at_t_max : bool)
    : matrix A :=
  map (end_indicator_row force_end_at_t_max) is_alive.

(** ** Tensor primitives used by the objective *)

(** [x.nonzero()]: the indices of the non-zero cells, row by row. *)
Fixpoint nonzero_row (b t : nat) (row : list A) : list (nat * nat) :=
  match row with
  | [] => []
  | x :: rest =>
      if is_zero x then nonzero_row b (S t) rest
      else (b, t) :: nonzero_row b (S t) rest
  end.

Fixpoint nonzero_from (b : nat) (m : matrix A) : list (nat * nat) :=
  match m with
  | [] => []
  | row :: rest => nonzero_row b 0 row ++ nonzero_from (S b) rest
  end.

Definition nonzero (m : matrix A) : list (nat * nat) := nonzero_from 0 m.

(** [x[ids]] for a tuple of index vectors. *)
Definition advanced_index (x : matrix A) (ids : list (nat * nat)) : result (list A) :=
  map_result (fun id => of_option IndexOutOfRange (cell x (fst id) (snd id))) ids.

Fixpoint set_nth {B : Type} (l : list B) (i : nat) (v : B) : option (list B) :=
  match l, i with
  | [], _ => None
  | _ :: rest, O => Some (v :: rest)
  | x :: rest, S i' => option_map (cons x) (set_nth rest i' v)
  end.

Definition set_cell (x : matrix A) (b t : nat) (v : A) : option (matrix A) :=
  match nth_error x b with
  | Some row =>
      match set_nth row t v with
      | Some row' => set_nth x b row'
      | None => None
      end
  | None => None
  end.

(** [T.set_subtensor(x[ids], ys)]. *)
Fixpoint set_subtensor (x : matrix A) (ids : list (nat * nat)) (ys : list A)
    : result (matrix A) :=
  match ids, ys with
  | [], [] => Ok x
  | id :: ids', y :: ys' =>
      x' <- of_option IndexOutOfRange (set_cell x (fst id) (snd id) y) ;;
      set_subtensor x' ids' ys'
  | _, _ => Err ShapeMismatch
  end.

Definition last_cell (row : list A) : result A :=
  of_option IndexOutOfRange (nth_error row (length row - 1)).

Definition set_last (row : list A) (v : A) : result (list A) :=
  match row with
  | [] => Err IndexOutOfRange
  | _ :: _ => Ok (removelast row ++ [v])
  end.

(** [T.set_subtensor(x[:, -1], y[:, -1])].  A batch without rows has no
    width here: it is let through, as the code does when the time axis is
    not empty. *)
Definition set_last_column (x y : matrix A) : result (matrix A) :=
  zip_with (fun xrow yrow => v <- last_cell yrow ;; set_last xrow v) x y.

Definition ones_like {B : Type} (x : matrix B) : matrix A :=
  map_matrix (fun _ => konst 1) x.

Definition consider_constant (x : matrix A) : matrix A :=
  map_matrix constant_cell x.

(** lasagne.objectives.squared_error: [(a - b) ** 2], elementwise. *)
Definition squared_error (a b : matrix A) : result (matrix A) :=
  elemwise (fun x y => mul (sub x y) (sub x y)) a b.

(** The value of an expression over selected cells: a vector with one
    entry per index, or a matrix when an operand had two dimensions. *)
Inductive operand : Type :=
| Vector (v : list A)
| Matrix (m : matrix A).

(** [gamma_or_gammas * state_values_after_end[end_ids[0], 0]].  The right
    operand is a vector with one entry per end index.  A single discount
    scales it; a [batch,tick] array of discounts is multiplied row by row,
    the vector broadcast along the rows, and the product is a matrix. *)
Definition times_gamma (gamma_or_gammas : discount A) (v : list A)
    : result operand :=
  match gamma_or_gammas with
  | Gamma g => Ok (Vector (map (mul (konst g)) v))
  | Gammas gs =>
      m <- map_result (fun row => zip_with (fun x y => Ok (mul x y)) row v) gs ;;
      Ok (Matrix m)
  end.

(** [rewards[end_ids] + ...]: the vector is added to a vector, or to every
    row of a matrix. *)
Definition plus_operand (r : list A) (x : operand) : result operand :=
  match x with
  | Vector v =>
      s <- zip_with (fun a b => Ok (add a b)) r v ;;
      Ok (Vector s)
  | Matrix m =>
      s <- map_result (fun row => zip_with (fun a b => Ok (add a b)) r row) m ;;
      Ok (Matrix s)
  end.

(** [T.set_subtensor(x[ids], y)] for a computed [y]: [x[ids]] is a vector,
    and a value with more dimensions than the subtensor is refused. *)
Definition set_subtensor_operand (x : matrix A) (ids : list (nat * nat))
    (y : operand) : result (matrix A) :=
  match y with
  | Vector ys => set_subtensor x ids ys
  | Matrix _ => Err ShapeMismatch
  end.

(** ** get_elementwise_objective *)

(** Lines 69-96: the reference state values, with the values at the end of
    each session forced when asked. *)
Definition reference_values (state_values rewards : matrix A)
    (is_alive : liveness A) (state_values_target : option (matrix A))
    (n_steps : option Z) (gamma_or_gammas : discount A)
    (force_values_after_end : bool) (state_values_after_end : after_end A)
    : result (matrix A) :=
  let state_values_target :=
    match state_values_target with
    | None => state_values
    | Some target => target
    end in
  reference_state_values <-
    get_n_step_value_reference state_values_target rewards is_alive n_steps
      state_values_after_end gamma_or_gammas ;;
  match is_alive with
  | Mask alive =>
      if force_values_after_end then
        let end_ids := nonzero (get_end_indicator alive true) in
        match state_values_after_end with
        | Zeros =>
            rewards_end <- advanced_index rewards end_ids ;;
            set_subtensor reference_state_values end_ids rewards_end
        | AfterEnd after =>
            rewards_end <- advanced_index rewards end_ids ;;
            after_end_ids <-
              map_result
                (fun id => of_option IndexOutOfRange (cell after (fst id) 0))
                end_ids ;;
            discounted <- times_gamma gamma_or_gammas after_end_ids ;;
            new_state_values <- plus_operand rewards_end discounted ;;
            set_subtensor_operand reference_state_values end_ids
              new_state_values
        end
      else Ok reference_state_values
  | Always => Ok reference_state_values
  end.

(** Lines 87-96 on their own: the forcing step, applied to a reference. *)
Definition terminal_override (rewards alive : matrix A)
    (gamma_or_gammas : discount A) (state_values_after_end : after_end A)
    (reference_state_values : matrix A) : result (matrix A) :=
  let end_ids := nonzero (get_end_indicator alive true) in
  match state_values_after_end with
  | Zeros =>
      rewards_end <- advanced_index rewards end_ids ;;
      set_subtensor reference_state_values end_ids rewards_end
  | AfterEnd after =>
      rewards_end <- advanced_index rewards end_ids ;;
      after_end_ids <-
        map_result
          (fun id => of_option IndexOutOfRange (cell after (fst id) 0))
          end_ids ;;
      discounted <- times_gamma gamma_or_gammas after_end_ids ;;
      new_state_values <- plus_operand rewards_end discounted ;;
      set_subtensor_operand reference_state_values end_ids new_state_values
  end.

(** The intermediate tensors of lines 98-127, under the names of the source. *)
Record terms : Type := {
  is_alive_mask : matrix A;
  action_probas : matrix A;
  reference_state_values : matrix A;
  log_probas : matrix A;
  observed_state_values : matrix A;
  policy_loss_elwise : matrix A;
  V_err_elwise : matrix A
}.

(** Lines 111-120: [log(p) if p != 0 else log(p + min_proba)]. *)
Definition log_proba (min_proba : R) (p : A) : A :=
  if Rzero min_proba then T_log p
  else if is_zero p then T_log (add p (konst (floatX min_proba)))
  else T_log p.

(** Lines 98-127: the actor and critic terms computed from the reference. *)
Definition objective_terms (policy : tensor3 A) (state_values : matrix A)
    (actions : matrix Z) (is_alive : liveness A) (reference : matrix A)
    (crop_last consider_value_reference_constant
       consider_predicted_value_constant : bool)
    (min_proba : R) : result terms :=
  let is_alive :=
    match is_alive with
    | Always => ones_like actions
    | Mask alive => alive
    end in
  action_probas <- get_action_Qvalues policy actions ;;
  reference <-
    (if crop_last then set_last_column reference state_values else Ok reference) ;;
  let reference :=
    if consider_value_reference_constant then consider_constant reference
    else reference in
  let log_probas := map_matrix (log_proba min_proba) action_probas in
  let observed_state_values :=
    if consider_predicted_value_constant then consider_constant state_values
    else state_values in
  advantage <- elemwise sub reference observed_state_values ;;
  policy_loss_elwise <- elemwise (fun l a => mul (neg l) a) log_probas advantage ;;
  V_err_elwise <- squared_error reference state_values ;;
  Ok {| is_alive_mask := is_alive;
        action_probas := action_probas;
        reference_state_values := reference;
        log_probas := log_probas;
        observed_state_values := observed_state_values;
        policy_loss_elwise := policy_loss_elwise;
        V_err_elwise := V_err_elwise |}.

(** Line 129: [(policy_loss_elwise + V_err_elwise) * is_alive]. *)
Definition masked_loss (tm : terms) : result (matrix A) :=
  total <- elemwise add (policy_loss_elwise tm) (V_err_elwise tm) ;;
  elemwise mul total (is_alive_mask tm).

Definition get_elementwise_objective (policy : tensor3 A)
    (state_values : matrix A) (actions : matrix Z) (rewards : matrix A)
    (is_alive : liveness A) (state_values_target : option (matrix A))
    (n_steps : option Z) (gamma_or_gammas : discount A)
    (crop_last force_values_after_end : bool)
    (state_values_after_end : after_end A)
    (consider_value_reference_constant
       consider_predicted_value_constant : bool)
    (min_proba : R) : result (matrix A) :=
  reference <-
    reference_values state_values rewards is_alive state_values_target n_steps
      gamma_or_gammas force_values_after_end state_values_after_end ;;
  tm <-
    objective_terms policy state_values actions is_alive reference crop_last
      consider_value_reference_constant consider_predicted_value_constant
      min_proba ;;
  masked_loss tm.

End Objective.

(** * Properties *)

(** ** The error monad and shape-checked zips *)

Lemma bind_ok {A B : Type} (c : result A) (f : A -> result B) (b : B) :
  bind c f = Ok b -> exists a, c = Ok a /\ f a = Ok b.
Proof.
  destruct c as [a|e]; simpl; intros Hb.
  - exists a; split; [reflexivity | exact Hb].
  - discriminate.
Qed.

Ltac inv_bind H :=
  let x := fresh "x" in
  let Hx := fresh "Hx" in
  apply bind_ok in H; destruct H as [x [Hx H]].

Lemma zip_with_nth {A B C : Type} (f : A -> B -> result C) :
  forall xs ys zs, zip_with f xs ys = Ok zs ->
  forall i,
    match nth_error xs i, nth_error ys i, nth_error zs i with
    | Some x, Some y, Some z => f x y = Ok z
    | None, None, None => True
    | _, _, _ => False
    end.
Proof.
  induction xs as [|x xs IH]; intros [|y ys] zs Hz; simpl in Hz; try discriminate.
  - injection Hz as <-. intros [|i]; exact I.
  - inv_bind Hz. inv_bind Hz. injection Hz as <-.
    intros [|i]; simpl.
    + exact Hx.
    + apply (IH _ _ Hx0).
Qed.

Lemma zip_with_length {A B C : Type} (f : A -> B -> result C) :
  forall xs ys zs, zip_with f xs ys = Ok zs ->
  length xs = length zs /\ length ys = length zs.
Proof.
  induction xs as [|x xs IH]; intros [|y ys] zs Hz; simpl in Hz; try discriminate.
  - injection Hz as <-. split; reflexivity.
  - inv_bind Hz. inv_bind Hz. injection Hz as <-.
    destruct (IH _ _ Hx0) as [H1 H2]. simpl. split; congruence.
Qed.

Lemma zip_with_total {A B C : Type} (f : A -> B -> C) :
  forall xs ys, length xs = length ys ->
  exists zs, zip_with (fun a b => Ok (f a b)) xs ys = Ok zs.
Proof.
  induction xs as [|x xs IH]; intros [|y ys] Hl; simpl in Hl; try discriminate.
  - exists []. reflexivity.
  - injection Hl as Hl. destruct (IH _ Hl) as [zs Hz].
    exists (f x y :: zs). simpl. rewrite Hz. reflexivity.
Qed.

Lemma elemwise_cell {A B C : Type} (f : A -> B -> C) (x : matrix A)
    (y : matrix B) (z : matrix C) :
  elemwise f x y = Ok z ->
  forall b t,
    cell z b t =
    match cell x b t, cell y b t with
    | Some a, Some c => Some (f a c)
    | _, _ => None
    end.
Proof.
  intros Hz b t. unfold elemwise in Hz. unfold cell.
  pose proof (zip_with_nth _ _ _ Hz b) as Hb.
  destruct (nth_error x b) as [xr|], (nth_error y b) as [yr|],
    (nth_error z b) as [zr|]; try contradiction; try reflexivity.
  pose proof (zip_with_nth _ _ _ Hb t) as Ht.
  destruct (nth_error xr t), (nth_error yr t), (nth_error zr t);
    try contradiction; try reflexivity.
  injection Ht as <-. reflexivity.
Qed.

Lemma elemwise_shape {A B C : Type} (f : A -> B -> C) :
  forall (x : matrix A) (y : matrix B) (z : matrix C),
  elemwise f x y = Ok z -> shape x = shape z /\ shape y = shape z.
Proof.
  unfold elemwise.
  induction x as [|xr x IH]; intros [|yr y] z Hz; simpl in Hz; try discriminate.
  - injection Hz as <-. split; reflexivity.
  - inv_bind Hz. inv_bind Hz. injection Hz as <-.
    destruct (IH _ _ Hx0) as [H1 H2].
    destruct (zip_with_length _ _ _ Hx) as [L1 L2].
    simpl. split; congruence.
Qed.

Lemma elemwise_total {A B C : Type} (f : A -> B -> C) :
  forall (x : matrix A) (y : matrix B), shape x = shape y ->
  exists z, elemwise f x y = Ok z.
Proof.
  unfold elemwise.
  induction x as [|xr x IH]; intros [|yr y] Hs; simpl in Hs; try discriminate.
  - exists []. reflexivity.
  - injection Hs as Hl Hs. destruct (IH _ Hs) as [z Hz].
    destruct (zip_with_total f _ _ Hl) as [zr Hzr].
    exists (zr :: z). simpl. rewrite Hzr. simpl. rewrite Hz. reflexivity.
Qed.

Lemma shape_map_matrix {A B : Type} (f : A -> B) (m : matrix A) :
  shape (map_matrix f m) = shape m.
Proof.
  unfold shape, map_matrix. rewrite map_map.
  apply map_ext. intros row. apply length_map.
Qed.

Lemma cell_map_matrix {A B : Type} (f : A -> B) (m : matrix A) (b t : nat) :
  cell (map_matrix f m) b t = option_map f (cell m b t).
Proof.
  unfold cell, map_matrix. rewrite nth_error_map.
  destruct (nth_error m b) as [row|]; simpl; [|reflexivity].
  apply nth_error_map.
Qed.

Lemma map_result_nth {A B : Type} (f : A -> result B) :
  forall xs ys, map_result f xs = Ok ys ->
  forall i,
    match nth_error xs i, nth_error ys i with
    | Some x, Some y => f x = Ok y
    | None, None => True
    | _, _ => False
    end.
Proof.
  induction xs as [|x xs IH]; intros ys Hy; simpl in Hy.
  - injection Hy as <-. intros [|i]; exact I.
  - inv_bind Hy. inv_bind Hy. injection Hy as <-.
    intros [|i]; simpl; [exact Hx | apply (IH _ Hx0)].
Qed.

(** ** The last column *)

Section LastColumn.

Context {A : Type} `{Scalar A}.

Lemma set_last_spec (row : list A) (v : A) (row' : list A) :
  set_last row v = Ok row' ->
  length row' = length row /\
  nth_error row' (length row - 1) = Some v /\
  forall t, (t < length row - 1)%nat -> nth_error row' t = nth_error row t.
Proof.
  intros Hr.
  assert (Hpos : (0 < length row)%nat).
  { destruct row; [discriminate | simpl; lia]. }
  assert (E : row' = removelast row ++ [v]).
  { destruct row; [discriminate|]. unfold set_last in Hr. congruence. }
  subst row'. clear Hr. rename row into l.
  rewrite removelast_firstn_len.
  assert (Hl : length (firstn (Nat.pred (length l)) l) = (length l - 1)%nat).
  { rewrite length_firstn. lia. }
  split; [|split].
  - rewrite length_app, Hl. simpl. lia.
  - rewrite nth_error_app2 by (rewrite Hl; lia).
    rewrite Hl, Nat.sub_diag. reflexivity.
  - intros t Ht. rewrite nth_error_app1 by (rewrite Hl; lia).
    rewrite nth_error_firstn.
    destruct (Nat.ltb_spec t (Nat.pred (length l))); [reflexivity | lia].
Qed.

Lemma set_last_column_row (x y z : matrix A) (b : nat) (yrow : list A) :
  set_last_column x y = Ok z ->
  nth_error y b = Some yrow ->
  exists xrow zrow v,
    nth_error x b = Some xrow /\ nth_error z b = Some zrow /\
    nth_error yrow (length yrow - 1) = Some v /\
    set_last xrow v = Ok zrow.
Proof.
  intros Hz Hy. unfold set_last_column in Hz.
  pose proof (zip_with_nth _ _ _ Hz b) as Hb. rewrite Hy in Hb.
  destruct (nth_error x b) as [xrow|]; [|contradiction].
  destruct (nth_error z b) as [zrow|]; [|contradiction].
  inv_bind Hb. unfold last_cell in Hx.
  destruct (nth_error yrow (length yrow - 1)) as [v|] eqn:Hv; [|discriminate].
  injection Hx as <-.
  exists xrow, zrow, v. repeat split; assumption.
Qed.

Lemma nth_error_shape (x : matrix A) (b : nat) :
  nth_error (shape x) b = option_map (@length A) (nth_error x b).
Proof. unfold shape. apply nth_error_map. Qed.

Lemma objective_terms_spec (policy : tensor3 A) (state_values : matrix A)
    (actions : matrix Z) (is_alive : liveness A) (reference : matrix A)
    (crop_last cvrc cpvc : bool) (min_proba : R) (tm : terms) :
  objective_terms policy state_values actions is_alive reference crop_last
    cvrc cpvc min_proba = Ok tm ->
  is_alive_mask tm =
    match is_alive with Always => ones_like actions | Mask alive => alive end /\
  get_action_Qvalues policy actions = Ok (action_probas tm) /\
  (exists cropped,
     (if crop_last then set_last_column reference state_values
      else Ok reference) = Ok cropped /\
     reference_state_values tm =
       if cvrc then consider_constant cropped else cropped) /\
  log_probas tm = map_matrix (log_proba min_proba) (action_probas tm) /\
  observed_state_values tm =
    (if cpvc then consider_constant state_values else state_values) /\
  (exists advantage,
     elemwise sub (reference_state_values tm) (observed_state_values tm)
       = Ok advantage /\
     elemwise (fun l a => mul (neg l) a) (log_probas tm) advantage
       = Ok (policy_loss_elwise tm)) /\
  squared_error (reference_state_values tm) state_values = Ok (V_err_elwise tm).
Proof.
  unfold objective_terms. intros Ht.
  inv_bind Ht. inv_bind Ht. inv_bind Ht. inv_bind Ht. inv_bind Ht.
  injection Ht as <-. simpl.
  repeat split; try assumption.
  - exists x0. split; [assumption | reflexivity].
  - exists x1. split; assumption.
Qed.

(** With [crop_last], the last cell of every row of the reference is the
    last cell of that row of [state_values], held constant when asked. *)
Lemma crop_last_cell (policy : tensor3 A) (state_values : matrix A)
    (actions : matrix Z) (is_alive : liveness A) (reference : matrix A)
    (cvrc cpvc : bool) (min_proba : R) (tm : terms) (b : nat) (row : list A) :
  objective_terms policy state_values actions is_alive reference true
    cvrc cpvc min_proba = Ok tm ->
  nth_error state_values b = Some row ->
  cell (reference_state_values tm) b (length row - 1) =
    option_map (if cvrc then constant_cell else fun v => v)
      (nth_error row (length row - 1)) /\
  nth_error row (length row - 1) <> None.
Proof.
  intros Ht Hrow.
  destruct (objective_terms_spec _ _ _ _ _ _ _ _ _ Ht)
    as (_ & _ & (cropped & Hc & Href) & _ & _ & _ & Hv).
  destruct (set_last_column_row _ _ b Hc Hrow)
    as (xrow & zrow & v & Hxr & Hzr & Hlast & Hset).
  destruct (set_last_spec _ _ Hset) as (Hlen & Hnth & _).
  assert (Hshape : length zrow = length row).
  { destruct (elemwise_shape _ _ _ Hv) as [S1 S2].
    assert (E : nth_error (shape (reference_state_values tm)) b
                = nth_error (shape state_values) b) by congruence.
    rewrite !nth_error_shape, Hrow, Href in E.
    destruct cvrc.
    - unfold consider_constant, map_matrix in E.
      rewrite nth_error_map, Hzr in E. simpl in E.
      rewrite length_map in E. congruence.
    - rewrite Hzr in E. simpl in E. congruence. }
  rewrite Hlast. split; [|discriminate].
  rewrite Href. replace (length row - 1)%nat with (length xrow - 1)%nat by lia.
  destruct cvrc.
  - unfold consider_constant. rewrite cell_map_matrix. unfold cell.
    rewrite Hzr, Hnth. reflexivity.
  - unfold cell. rewrite Hzr, Hnth. reflexivity.
Qed.

End LastColumn.

(** ** Cells of the loss *)

Section Cells.

Context {A : Type} `{Scalar A}.

Lemma policy_loss_cell (policy : tensor3 A) (state_values : matrix A)
    (actions : matrix Z) (is_alive : liveness A) (reference : matrix A)
    (crop_last cvrc cpvc : bool) (min_proba : R) (tm : terms) (b t : nat) :
  objective_terms policy state_values actions is_alive reference crop_last
    cvrc cpvc min_proba = Ok tm ->
  cell (policy_loss_elwise tm) b t =
    match cell (log_probas tm) b t, cell (reference_state_values tm) b t,
          cell (observed_state_values tm) b t with
    | Some l, Some r, Some o => Some (mul (neg l) (sub r o))
    | _, _, _ => None
    end.
Proof.
  intros Ht.
  destruct (objective_terms_spec _ _ _ _ _ _ _ _ _ Ht)
    as (_ & _ & _ & _ & _ & (adv & Ha & Hp) & _).
  rewrite (elemwise_cell _ _ _ Hp b t), (elemwise_cell _ _ _ Ha b t).
  destruct (cell (log_probas tm) b t), (cell (reference_state_values tm) b t),
    (cell (observed_state_values tm) b t); reflexivity.
Qed.

Lemma V_err_cell (policy : tensor3 A) (state_values : matrix A)
    (actions : matrix Z) (is_alive : liveness A) (reference : matrix A)
    (crop_last cvrc cpvc : bool) (min_proba : R) (tm : terms) (b t : nat) :
  objective_terms policy state_values actions is_alive reference crop_last
    cvrc cpvc min_proba = Ok tm ->
  cell (V_err_elwise tm) b t =
    match cell (reference_state_values tm) b t, cell state_values b t with
    | Some r, Some v => Some (mul (sub r v) (sub r v))
    | _, _ => None
    end.
Proof.
  intros Ht.
  destruct (objective_terms_spec _ _ _ _ _ _ _ _ _ Ht)
    as (_ & _ & _ & _ & _ & _ & Hv).
  apply (elemwise_cell _ _ _ Hv b t).
Qed.

Lemma masked_loss_cell (tm : terms) (loss : matrix A) (b t : nat) :
  masked_loss tm = Ok loss ->
  cell loss b t =
    match cell (policy_loss_elwise tm) b t, cell (V_err_elwise tm) b t,
          cell (is_alive_mask tm) b t with
    | Some p, Some e, Some a => Some (mul (add p e) a)
    | _, _, _ => None
    end.
Proof.
  unfold masked_loss. intros Hl. inv_bind Hl.
  rewrite (elemwise_cell _ _ _ Hl b t), (elemwise_cell _ _ _ Hx b t).
  destruct (cell (policy_loss_elwise tm) b t), (cell (V_err_elwise tm) b t),
    (cell (is_alive_mask tm) b t); reflexivity.
Qed.

Lemma get_elementwise_objective_inv (policy : tensor3 A)
    (state_values : matrix A) (actions : matrix Z) (rewards : matrix A)
    (is_alive : liveness A) (target : option (matrix A)) (n_steps : option Z)
    (gamma_or_gammas : discount A) (crop_last force : bool)
    (after : after_end A) (cvrc cpvc : bool) (min_proba : R)
    (loss : matrix A) :
  get_elementwise_objective policy state_values actions rewards is_alive
    target n_steps gamma_or_gammas crop_last force after cvrc cpvc min_proba
    = Ok loss ->
  exists reference tm,
    reference_values state_values rewards is_alive target n_steps
      gamma_or_gammas force after = Ok reference /\
    objective_terms policy state_values actions is_alive reference crop_last
      cvrc cpvc min_proba = Ok tm /\
    masked_loss tm = Ok loss.
Proof.
  unfold get_elementwise_objective. intros Hl. inv_bind Hl. inv_bind Hl.
  exists x, x0. repeat split; assumption.
Qed.

Lemma log_probas_cell (policy : tensor3 A) (state_values : matrix A)
    (actions : matrix Z) (is_alive : liveness A) (reference : matrix A)
    (crop_last cvrc cpvc : bool) (min_proba : R) (tm : terms) (b t : nat) :
  objective_terms policy state_values actions is_alive reference crop_last
    cvrc cpvc min_proba = Ok tm ->
  cell (log_probas tm) b t =
    option_map (log_proba min_proba) (cell (action_probas tm) b t).
Proof.
  intros Ht.
  destruct (objective_terms_spec _ _ _ _ _ _ _ _ _ Ht)
    as (_ & _ & _ & Hl & _).
  rewrite Hl. apply cell_map_matrix.
Qed.

(** [min_proba] only enters [log_probas]: changing it changes neither the
    success of the call nor any other tensor. *)
Lemma objective_terms_min_proba (policy : tensor3 A) (state_values : matrix A)
    (actions : matrix Z) (is_alive : liveness A) (reference : matrix A)
    (crop_last cvrc cpvc : bool) (min_proba min_proba' : R) (tm : terms) :
  objective_terms policy state_values actions is_alive reference crop_last
    cvrc cpvc min_proba = Ok tm ->
  exists tm',
    objective_terms policy state_values actions is_alive reference crop_last
      cvrc cpvc min_proba' = Ok tm' /\
    is_alive_mask tm' = is_alive_mask tm /\
    action_probas tm' = action_probas tm /\
    reference_state_values tm' = reference_state_values tm /\
    observed_state_values tm' = observed_state_values tm /\
    V_err_elwise tm' = V_err_elwise tm /\
    shape (policy_loss_elwise tm') = shape (policy_loss_elwise tm).
Proof.
  unfold objective_terms. intros Ht.
  destruct (get_action_Qvalues policy actions) as [probas|];
    cbn [bind] in *; [|discriminate].
  destruct (if crop_last then set_last_column reference state_values
            else Ok reference) as [cropped|]; cbn [bind] in *; [|discriminate].
  destruct (elemwise sub _ _) as [adv|]; cbn [bind] in *; [|discriminate].
  destruct (elemwise _ (map_matrix (log_proba min_proba) probas) adv)
    as [pl|] eqn:Ep; cbn [bind] in Ht; [|discriminate].
  destruct (squared_error _ state_values) as [ve|]; cbn [bind] in *;
    [|discriminate].
  injection Ht as <-.
  destruct (elemwise_shape _ _ _ Ep) as [S1 S2].
  rewrite shape_map_matrix in S1.
  destruct (elemwise_total (fun l a => mul (neg l) a)
              (map_matrix (log_proba min_proba') probas) adv) as [pl' Ep'].
  { rewrite shape_map_matrix. congruence. }
  rewrite Ep'. cbn [bind]. eexists. split; [reflexivity|]. simpl.
  repeat split.
  destruct (elemwise_shape _ _ _ Ep') as [_ S2']. congruence.
Qed.

Lemma masked_loss_total (tm tm' : terms) (loss : matrix A) :
  masked_loss tm = Ok loss ->
  shape (policy_loss_elwise tm') = shape (policy_loss_elwise tm) ->
  V_err_elwise tm' = V_err_elwise tm ->
  is_alive_mask tm' = is_alive_mask tm ->
  exists loss', masked_loss tm' = Ok loss'.
Proof.
  unfold masked_loss. intros Hl Sp Ev Em. inv_bind Hl. rename x into total.
  destruct (elemwise_shape _ _ _ Hx) as [S1 S2].
  destruct (elemwise_shape _ _ _ Hl) as [S3 S4].
  destruct (elemwise_total add (policy_loss_elwise tm') (V_err_elwise tm'))
    as [total' Ht']; [congruence|].
  rewrite Ht'. cbn [bind].
  destruct (elemwise_shape _ _ _ Ht') as [S1' _].
  apply elemwise_total. congruence.
Qed.

End Cells.

(** ** Values *)

Lemma Rzero_0 : Rzero 0 = true.
Proof. unfold Rzero. destruct (Req_dec_T 0 0); [reflexivity | contradiction]. Qed.

Lemma Rzero_neq (r : R) : r <> 0%R -> Rzero r = false.
Proof. unfold Rzero. destruct (Req_dec_T r 0); [contradiction | reflexivity]. Qed.

Lemma Rzero_true (r : R) : Rzero r = true -> r = 0%R.
Proof. unfold Rzero. destruct (Req_dec_T r 0); [trivial | discriminate]. Qed.

Lemma Rpositive_pos (r : R) : (0 < r)%R -> Rpositive r = true.
Proof. unfold Rpositive. destruct (Rlt_dec 0 r); [reflexivity | contradiction]. Qed.

Lemma Rpositive_nonpos (r : R) : (r <= 0)%R -> Rpositive r = false.
Proof. unfold Rpositive. destruct (Rlt_dec 0 r); [lra | reflexivity]. Qed.

Lemma consider_constant_val (x : matrix val) : consider_constant x = x.
Proof.
  unfold consider_constant, map_matrix. simpl.
  rewrite <- (map_id x) at 2. apply map_ext. intros row. apply map_id.
Qed.

(** The logarithm used in the policy term is a real number exactly when the
    selected probability is positive, or is zero and [min_proba] is positive. *)
Lemma floatX_0 : floatX 0 = 0%R.
Proof. unfold floatX. destruct (Rle_dec (Rabs 0) floatX_tiny); reflexivity. Qed.

Lemma floatX_tiny_pos : (0 < floatX_tiny)%R.
Proof. unfold floatX_tiny. apply Rinv_0_lt_compat, pow_lt. lra. Qed.

Lemma floatX_underflow : floatX floatX_tiny = 0%R.
Proof.
  unfold floatX. destruct (Rle_dec (Rabs floatX_tiny) floatX_tiny) as [|Hn];
    [reflexivity|].
  exfalso. apply Hn. rewrite Rabs_pos_eq; [lra|].
  apply Rlt_le, floatX_tiny_pos.
Qed.

Lemma floatX_keep (x : R) : (floatX_tiny < Rabs x)%R -> floatX x = x.
Proof.
  intros Hx. unfold floatX.
  destruct (Rle_dec (Rabs x) floatX_tiny); [lra | reflexivity].
Qed.

Lemma floatX_tiny_small : (floatX_tiny < 0.001)%R.
Proof.
  unfold floatX_tiny.
  assert (H : (1024 <= 2 ^ 150)%R).
  { change 150%nat with (10 + 140)%nat. rewrite pow_add.
    assert (H1 : (1 <= 2 ^ 140)%R) by (apply pow_R1_Rle; lra).
    assert (H2 : (2 ^ 10 = 1024)%R) by (simpl; lra).
    rewrite H2. nra. }
  apply Rle_lt_trans with (/ 1024)%R; [|lra].
  apply Rinv_le_contravar; lra.
Qed.

Lemma floatX_001 : floatX 0.001 = 0.001%R.
Proof.
  apply floatX_keep. rewrite Rabs_pos_eq by lra. apply floatX_tiny_small.
Qed.

Lemma log_proba_finite (min_proba p : R) :
  (0 < p \/ (p = 0 /\ 0 < floatX min_proba))%R ->
  exists l : R, log_proba min_proba (Fin p) = Fin l.
Proof.
  intros Hp. unfold log_proba. simpl.
  destruct (Rzero min_proba) eqn:Em.
  - apply Rzero_true in Em. destruct Hp as [Hp|[_ Hm]];
      [|subst min_proba; rewrite floatX_0 in Hm; lra].
    rewrite (Rpositive_pos Hp). eexists. reflexivity.
  - destruct (Rzero p) eqn:Ep.
    + apply Rzero_true in Ep. destruct Hp as [Hp|[_ Hm]]; [lra|].
      rewrite Rpositive_pos by lra. eexists. reflexivity.
    + destruct Hp as [Hp|[Hp _]].
      * rewrite (Rpositive_pos Hp). eexists. reflexivity.
      * subst p. rewrite Rzero_0 in Ep. discriminate.
Qed.

Lemma log_proba_nonfinite (p : R) : (p <= 0)%R -> log_proba 0 (Fin p) = NonFin.
Proof.
  intros Hp. unfold log_proba. rewrite Rzero_0. simpl.
  rewrite (Rpositive_nonpos Hp). reflexivity.
Qed.

(** ** The return estimator *)



Section Estimator.

Context {A : Type} `{Scalar A}.



(** With [is_alive = "always"] every step of the batch is alive. *)
Lemma alive_flags_always (rewards : matrix A) (b t : nat) (r : A) :
  cell rewards b t = Some r ->
  cell (alive_flags Always rewards) b t = Some true.
Proof.
  intros Hr. unfold alive_flags. rewrite cell_map_matrix, Hr. reflexivity.
Qed.

End Estimator.

Section EstimatorClaims.

Context {A : Type} `{Scalar A}.


(** C8.  A non-positive [n_steps] makes the call fail with
    InvalidConfiguration, whatever the other arguments. *)
Theorem non_positive_n_steps_rejected (policy : tensor3 A)
    (state_values : matrix A) (actions : matrix Z) (rewards : matrix A)
    (is_alive : liveness A) (target : option (matrix A)) (n : Z)
    (gamma_or_gammas : discount A) (crop_last force : bool)
    (after : after_end A) (cvrc cpvc : bool) (min_proba : R) :
  (n <= 0)%Z ->
  get_elementwise_objective policy state_values actions rewards is_alive
    target (Some n) gamma_or_gammas crop_last force after cvrc cpvc min_proba
    = Err InvalidConfiguration.
Proof.
  intros Hn.
  unfold get_elementwise_objective, reference_values,
    get_n_step_value_reference, horizon.
  destruct (Z.leb_spec n 0); [reflexivity | lia].
Qed.

End EstimatorClaims.

(** ** Indexed reads and writes *)

Section Subtensor.

Context {A : Type} `{Scalar A}.

Lemma set_nth_spec {B : Type} :
  forall (l : list B) (i : nat) (v : B) (l' : list B),
  set_nth l i v = Some l' ->
  length l' = length l /\
  nth_error l' i = Some v /\
  forall j, j <> i -> nth_error l' j = nth_error l j.
Proof.
  induction l as [|x l IH]; intros [|i] v l' Hs; simpl in Hs; try discriminate.
  - injection Hs as <-. repeat split. intros [|j] Hj; [contradiction | reflexivity].
  - destruct (set_nth l i v) as [r|] eqn:Er; [|discriminate].
    injection Hs as <-. destruct (IH _ _ _ Er) as (Hl & Hn & Ho).
    simpl. repeat split; [congruence | exact Hn |].
    intros [|j] Hj; [reflexivity|]. simpl. apply Ho. congruence.
Qed.

Lemma set_cell_spec (x : matrix A) (b t : nat) (v : A) (x' : matrix A) :
  set_cell x b t v = Some x' ->
  cell x' b t = Some v /\
  forall b' t', (b', t') <> (b, t) -> cell x' b' t' = cell x b' t'.
Proof.
  unfold set_cell. intros Hs.
  destruct (nth_error x b) as [row|] eqn:Erow; [|discriminate].
  destruct (set_nth row t v) as [row'|] eqn:Er; [|discriminate].
  destruct (set_nth_spec _ _ _ Er) as (_ & Hn & Ho).
  destruct (set_nth_spec _ _ _ Hs) as (_ & Hn' & Ho').
  unfold cell. split.
  - rewrite Hn'. exact Hn.
  - intros b' t' Hne. destruct (Nat.eq_dec b' b) as [->|Hb].
    + rewrite Hn', Erow. apply Ho. congruence.
    + rewrite (Ho' _ Hb). reflexivity.
Qed.

Lemma set_subtensor_spec :
  forall (ids : list (nat * nat)) (x : matrix A) (ys : list A) (x' : matrix A),
  set_subtensor x ids ys = Ok x' ->
  NoDup ids ->
  (forall i b t, nth_error ids i = Some (b, t) ->
     cell x' b t = nth_error ys i /\ nth_error ys i <> None) /\
  (forall b t, ~ In (b, t) ids -> cell x' b t = cell x b t).
Proof.
  induction ids as [|id ids IH]; intros x [|y ys] x' Hs Hnd; simpl in Hs;
    try discriminate.
  - injection Hs as <-. split; [intros [|i] b t; discriminate | reflexivity].
  - inv_bind Hs. destruct id as [b0 t0]. simpl in Hx.
    destruct (set_cell x b0 t0 y) as [x1|] eqn:Ec; [|discriminate].
    injection Hx as <-.
    destruct (set_cell_spec _ _ _ _ Ec) as [Hset Hother].
    inversion Hnd as [|? ? Hnotin Hnd']; subst.
    destruct (IH _ _ _ Hs Hnd') as [Hin Hout]. split.
    + intros [|i] b t Hi; simpl in Hi.
      * injection Hi as <- <-. simpl.
        rewrite (Hout _ _ Hnotin). split; [exact Hset | discriminate].
      * simpl. apply Hin. exact Hi.
    + intros b t Hn. rewrite Hout by (intros Hc; apply Hn; right; exact Hc).
      apply Hother. intros Hc. apply Hn. left. symmetry. exact Hc.
Qed.

Lemma advanced_index_nth (x : matrix A) (ids : list (nat * nat)) (ys : list A) :
  advanced_index x ids = Ok ys ->
  forall i b t, nth_error ids i = Some (b, t) ->
  nth_error ys i = cell x b t /\ cell x b t <> None.
Proof.
  intros Hy i b t Hi. pose proof (map_result_nth _ _ Hy i) as Hn.
  rewrite Hi in Hn. destruct (nth_error ys i) as [y|]; [|contradiction].
  simpl in Hn. destruct (cell x b t) as [c|]; [|discriminate].
  injection Hn as <-. split; [reflexivity | discriminate].
Qed.

Lemma nonzero_row_in (b : nat) :
  forall (row : list A) (t0 b' t' : nat),
  In (b', t') (nonzero_row b t0 row) <->
  b' = b /\ (t0 <= t')%nat /\
  exists e, nth_error row (t' - t0) = Some e /\ is_zero e = false.
Proof.
  induction row as [|x row IH]; intros t0 b' t'; simpl.
  - split; [contradiction|]. intros (_ & _ & e & He & _).
    destruct (t' - t0)%nat; discriminate.
  - assert (Hrest : In (b', t') (nonzero_row b (S t0) row) <->
        b' = b /\ (t0 < t')%nat /\
        exists e, nth_error (x :: row) (t' - t0) = Some e /\ is_zero e = false).
    { rewrite IH. split.
      - intros (Hb & Ht & e & He & Hz). repeat split; [exact Hb | lia |].
        exists e. replace (t' - t0)%nat with (S (t' - S t0)) by lia.
        split; assumption.
      - intros (Hb & Ht & e & He & Hz). repeat split; [exact Hb | lia |].
        exists e. replace (t' - t0)%nat with (S (t' - S t0)) in He by lia.
        split; assumption. }
    destruct (is_zero x) eqn:Ex.
    + rewrite Hrest. split.
      * intros (Hb & Ht & He). repeat split; [exact Hb | lia | exact He].
      * intros (Hb & Ht & e & He & Hz). repeat split; [exact Hb | |].
        -- destruct (Nat.eq_dec t' t0) as [->|]; [|lia].
           rewrite Nat.sub_diag in He. simpl in He. congruence.
        -- exists e. split; assumption.
    + simpl. rewrite Hrest. split.
      * intros [Heq|(Hb & Ht & He)].
        -- injection Heq as <- <-. repeat split; [lia|].
           exists x. rewrite Nat.sub_diag. split; [reflexivity | exact Ex].
        -- repeat split; [exact Hb | lia | exact He].
      * intros (Hb & Ht & He).
        destruct (Nat.eq_dec t' t0) as [->|]; [left; congruence|].
        right. repeat split; [exact Hb | lia | exact He].
Qed.

Lemma nonzero_row_nodup (b : nat) :
  forall (row : list A) (t0 : nat), NoDup (nonzero_row b t0 row).
Proof.
  induction row as [|x row IH]; intros t0; simpl; [constructor|].
  destruct (is_zero x); [apply IH|].
  constructor; [|apply IH].
  rewrite nonzero_row_in. intros (_ & Ht & _). lia.
Qed.

Lemma nonzero_from_in :
  forall (m : matrix A) (b0 b t : nat),
  In (b, t) (nonzero_from b0 m) <->
  (b0 <= b)%nat /\ exists e, cell m (b - b0) t = Some e /\ is_zero e = false.
Proof.
  induction m as [|row m IH]; intros b0 b t; simpl.
  - split; [contradiction|]. intros (_ & e & He & _).
    unfold cell in He. destruct (b - b0)%nat; discriminate.
  - rewrite in_app_iff, nonzero_row_in, IH. unfold cell. split.
    + intros [(Hb & _ & e & He & Hz)|(Hb & e & He & Hz)].
      * subst b. split; [lia|]. exists e. rewrite Nat.sub_diag. simpl.
        rewrite Nat.sub_0_r in He. split; assumption.
      * split; [lia|]. exists e.
        replace (b - b0)%nat with (S (b - S b0)) by lia. split; assumption.
    + intros (Hb & e & He & Hz).
      destruct (Nat.eq_dec b b0) as [->|Hne].
      * left. rewrite Nat.sub_diag in He. simpl in He.
        repeat split; [lia|]. exists e. rewrite Nat.sub_0_r. split; assumption.
      * right. split; [lia|]. exists e.
        replace (b - b0)%nat with (S (b - S b0)) in He by lia. split; assumption.
Qed.

Lemma nonzero_in (m : matrix A) (b t : nat) :
  In (b, t) (nonzero m) <->
  exists e, cell m b t = Some e /\ is_zero e = false.
Proof.
  unfold nonzero. rewrite nonzero_from_in, Nat.sub_0_r. split.
  - intros [_ He]. exact He.
  - intros He. split; [lia | exact He].
Qed.

Lemma nonzero_nodup (m : matrix A) : NoDup (nonzero m).
Proof.
  unfold nonzero. generalize 0%nat.
  induction m as [|row m IH]; intros b0; simpl; [constructor|].
  apply NoDup_app.
  - apply nonzero_row_nodup.
  - apply IH.
  - intros [b t] Hrow Hrest.
    apply nonzero_row_in in Hrow. apply nonzero_from_in in Hrest.
    destruct Hrow as [-> _]. destruct Hrest as [Hb _]. lia.
Qed.

Lemma end_indicator_row_nth (force : bool) :
  forall (alive : list A) (t : nat),
  nth_error (end_indicator_row force alive) t =
    match nth_error alive t with
    | None => None
    | Some a =>
        Some match nth_error alive (S t) with
             | None => if force then konst 1 else konst 0
             | Some a' =>
                 if negb (is_zero a) && is_zero a' then konst 1 else konst 0
             end
    end.
Proof.
  induction alive as [|a rest IH]; intros t; [destruct t; reflexivity|].
  destruct rest as [|a' rest'].
  - destruct t as [|[|t]]; reflexivity.
  - destruct t as [|t].
    + reflexivity.
    + change (nth_error (end_indicator_row force (a :: a' :: rest')) (S t))
        with (nth_error (end_indicator_row force (a' :: rest')) t).
      rewrite IH. reflexivity.
Qed.

(** Lines 82-96, read cell by cell: the cells listed by [end_ids] are
    rewritten, the others keep the value of the recurrence. *)
Lemma reference_values_forced (state_values rewards alive : matrix A)
    (target : option (matrix A)) (n_steps : option Z)
    (gamma_or_gammas : discount A) (after : after_end A)
    (forced : matrix A) :
  reference_values state_values rewards (Mask alive) target n_steps
    gamma_or_gammas true after = Ok forced ->
  exists recurrence,
    get_n_step_value_reference
      (match target with None => state_values | Some x => x end)
      rewards (Mask alive) n_steps after gamma_or_gammas = Ok recurrence /\
    (forall b t, ~ In (b, t) (nonzero (get_end_indicator alive true)) ->
       cell forced b t = cell recurrence b t) /\
    (forall b t, In (b, t) (nonzero (get_end_indicator alive true)) ->
       match after with
       | Zeros =>
           exists r, cell rewards b t = Some r /\ cell forced b t = Some r
       | AfterEnd m =>
           exists g r v,
             gamma_or_gammas = Gamma g /\ cell rewards b t = Some r /\
             cell m b 0 = Some v /\
             cell forced b t = Some (add r (mul (konst g) v))
       end).
Proof.
  unfold reference_values. intros Hf. inv_bind Hf. rename x into recurrence.
  exists recurrence. split; [exact Hx|].
  pose proof (nonzero_nodup (get_end_indicator alive true)) as Hnd.
  destruct after as [|m].
  - inv_bind Hf. rename x into rewards_end.
    destruct (set_subtensor_spec _ _ Hf Hnd) as [Hin Hout].
    split; [exact Hout|]. intros b t Hbt.
    destruct (In_nth_error _ _ Hbt) as [i Hi].
    destruct (Hin _ _ _ Hi) as [Hc _].
    destruct (advanced_index_nth _ _ Hx0 i Hi) as [Hr Hne].
    destruct (cell rewards b t) as [r|]; [|contradiction].
    exists r. split; [reflexivity | congruence].
  - inv_bind Hf. rename x into rewards_end.
    inv_bind Hf. rename x into after_end_ids.
    inv_bind Hf. rename x into discounted.
    inv_bind Hf. rename x into new_state_values.
    destruct gamma_or_gammas as [g|gs]; simpl in Hx2.
    2:{ inv_bind Hx2. injection Hx2 as <-. simpl in Hx3. inv_bind Hx3.
        injection Hx3 as <-. discriminate. }
    injection Hx2 as <-. simpl in Hx3. inv_bind Hx3. rename x into sums.
    injection Hx3 as <-. simpl in Hf.
    destruct (set_subtensor_spec _ _ Hf Hnd) as [Hin Hout].
    split; [exact Hout|]. intros b t Hbt.
    destruct (In_nth_error _ _ Hbt) as [i Hi].
    destruct (Hin _ _ _ Hi) as [Hc _].
    destruct (advanced_index_nth _ _ Hx0 i Hi) as [Hr Hne].
    destruct (cell rewards b t) as [r|]; [|contradiction].
    pose proof (map_result_nth _ _ Hx1 i) as Ha. rewrite Hi in Ha.
    destruct (nth_error after_end_ids i) as [v|] eqn:Ev; [|contradiction].
    simpl in Ha. destruct (cell m b 0) as [v'|] eqn:Em; [|discriminate].
    injection Ha as ->.
    pose proof (zip_with_nth _ _ _ Hx2 i) as Hz.
    rewrite Hr, nth_error_map, Ev in Hz. simpl in Hz.
    destruct (nth_error sums i) as [z|]; [|contradiction].
    injection Hz as <-.
    exists g, r, v. repeat split; congruence.
Qed.

(** With an array of discounts and explicit after-end values, line 95
    cannot build the new values. *)
Lemma reference_values_gammas_error (state_values rewards alive : matrix A)
    (target : option (matrix A)) (n_steps : option Z)
    (gs after : matrix A) :
  exists e,
    reference_values state_values rewards (Mask alive) target n_steps
      (Gammas gs) true (AfterEnd after) = Err e.
Proof.
  unfold reference_values.
  destruct (get_n_step_value_reference _ rewards (Mask alive) n_steps
              (AfterEnd after) (Gammas gs)) as [r|e]; simpl;
    [|exists e; reflexivity].
  destruct (advanced_index rewards _) as [re|e]; simpl; [|exists e; reflexivity].
  destruct (map_result _ _) as [ae|e]; simpl; [|exists e; reflexivity].
  destruct (map_result _ gs) as [m|e]; simpl; [|exists e; reflexivity].
  destruct (map_result _ m) as [m'|e]; simpl; [|exists e; reflexivity].
  exists ShapeMismatch. reflexivity.
Qed.

End Subtensor.

Section ValueClaims.

Open Scope R_scope.

Lemma end_indicator_cell (alive : matrix val) (b t : nat) (a : val) :
  cell alive b t = Some a ->
  cell (get_end_indicator alive true) b t =
    Some (if match cell alive b (S t) with
             | None => true
             | Some a' => negb (vis_zero a) && vis_zero a'
             end
          then Fin 1 else Fin 0).
Proof.
  unfold cell, get_end_indicator. rewrite nth_error_map.
  destruct (nth_error alive b) as [row|]; [|discriminate]. cbn [option_map].
  intros Ha. rewrite end_indicator_row_nth, Ha.
  destruct (nth_error row (S t)) as [a'|]; [|reflexivity].
  cbn [is_zero val_scalar konst].
  destruct (negb (vis_zero a) && vis_zero a'); reflexivity.
Qed.

(** C5.  With [crop_last], the reference value at the last time column is
    the predicted state value at that column, and the squared-error term at
    that column is zero, for every row, whatever reference the recurrence
    produced and whatever the gradient-blocking flags. *)
Theorem crop_last_value_term_zero (policy : tensor3 val)
    (state_values : matrix val) (actions : matrix Z) (is_alive : liveness val)
    (reference : matrix val) (cvrc cpvc : bool) (min_proba : R)
    (tm : terms) (b : nat) (row : list val) (v : R) :
  objective_terms policy state_values actions is_alive reference true
    cvrc cpvc min_proba = Ok tm ->
  nth_error state_values b = Some row ->
  nth_error row (length row - 1) = Some (Fin v) ->
  cell (reference_state_values tm) b (length row - 1) = Some (Fin v) /\
  cell (V_err_elwise tm) b (length row - 1) = Some (Fin 0).
Proof.
  intros Ht Hrow Hlast.
  destruct (crop_last_cell _ _ _ _ _ _ _ _ b Ht Hrow) as [Hc _].
  rewrite Hlast in Hc. simpl in Hc.
  assert (Hr : cell (reference_state_values tm) b (length row - 1)
               = Some (Fin v)) by (destruct cvrc; exact Hc).
  split; [exact Hr|].
  rewrite (V_err_cell _ _ _ _ _ _ _ _ _ b (length row - 1) Ht), Hr.
  unfold cell at 1. rewrite Hrow, Hlast. simpl.
  do 2 f_equal. ring.
Qed.

(** C10.  The last column is cropped after the values at session ends are
    forced: with a liveness mask, [force_values_after_end] and [crop_last],
    the reference used in the loss has, at the last column of every row, the
    predicted state value of that cell, also where the forcing step had put
    the reward of the boundary there. *)
Theorem crop_last_after_terminal_override (policy : tensor3 val)
    (state_values : matrix val) (actions : matrix Z) (rewards : matrix val)
    (alive : matrix val) (target : option (matrix val)) (n_steps : option Z)
    (gamma_or_gammas : discount val) (after : after_end val)
    (cvrc cpvc : bool) (min_proba : R) (reference : matrix val) (tm : terms)
    (b : nat) (row : list val) :
  reference_values state_values rewards (Mask alive) target n_steps
    gamma_or_gammas true after = Ok reference ->
  objective_terms policy state_values actions (Mask alive) reference true
    cvrc cpvc min_proba = Ok tm ->
  nth_error state_values b = Some row ->
  exists v,
    nth_error row (length row - 1) = Some v /\
    cell (reference_state_values tm) b (length row - 1) = Some v /\
    (forall a,
       cell alive b (length row - 1) = Some a ->
       cell alive b (S (length row - 1)) = None ->
       exists forced,
         cell reference b (length row - 1) = Some forced /\
         (after = Zeros -> cell rewards b (length row - 1) = Some forced)).
Proof.
  intros Hr Ht Hrow.
  destruct (crop_last_cell _ _ _ _ _ _ _ _ b Ht Hrow) as [Hc Hv].
  destruct (nth_error row (length row - 1)) as [v|]; [|contradiction].
  exists v. split; [reflexivity|]. split; [destruct cvrc; exact Hc|].
  intros a Ha Hnext.
  destruct (reference_values_forced _ _ _ _ _ _ _ Hr) as (_ & _ & _ & Hin).
  pose proof (end_indicator_cell _ _ _ Ha) as He. rewrite Hnext in He.
  assert (Hend : In (b, (length row - 1)%nat)
                   (nonzero (get_end_indicator alive true))).
  { apply nonzero_in. exists (Fin 1). split; [exact He|].
    simpl. apply Rzero_neq. lra. }
  specialize (Hin _ _ Hend). destruct after as [|m].
  - destruct Hin as (r & Hrw & Hf). exists r. split; [exact Hf|].
    intros _. exact Hrw.
  - destruct Hin as (g & r & w & _ & _ & _ & Hf).
    eexists. split; [exact Hf | discriminate].
Qed.

(** C4, amended.  At a cell whose liveness is 0 the returned loss is 0
    whenever the policy term and the value term of that cell are real
    numbers. *)
Theorem dead_cell_loss_zero (policy : tensor3 val) (state_values : matrix val)
    (actions : matrix Z) (rewards : matrix val) (alive : matrix val)
    (target : option (matrix val)) (n_steps : option Z)
    (gamma_or_gammas : discount val) (crop_last force : bool)
    (after : after_end val) (cvrc cpvc : bool) (min_proba : R)
    (reference : matrix val) (tm : terms) (loss : matrix val)
    (b t : nat) (p e : R) :
  reference_values state_values rewards (Mask alive) target n_steps
    gamma_or_gammas force after = Ok reference ->
  objective_terms policy state_values actions (Mask alive) reference
    crop_last cvrc cpvc min_proba = Ok tm ->
  get_elementwise_objective policy state_values actions rewards (Mask alive)
    target n_steps gamma_or_gammas crop_last force after cvrc cpvc min_proba
    = Ok loss ->
  cell alive b t = Some (Fin 0) ->
  cell (policy_loss_elwise tm) b t = Some (Fin p) ->
  cell (V_err_elwise tm) b t = Some (Fin e) ->
  cell loss b t = Some (Fin 0).
Proof.
  intros Hr Ht Hl Ha Hp He.
  destruct (get_elementwise_objective_inv _ _ _ _ _ _ _ _ _ _ _ _ _ _ Hl)
    as (reference' & tm' & Hr' & Ht' & Hm).
  assert (reference' = reference) by congruence. subst reference'.
  assert (tm' = tm) by congruence. subst tm'.
  rewrite (masked_loss_cell _ b t Hm), Hp, He.
  destruct (objective_terms_spec _ _ _ _ _ _ _ _ _ Ht) as (Hmask & _).
  rewrite Hmask, Ha. simpl. do 2 f_equal. ring.
Qed.

(** With [crop_last], the returned loss at the last time column is 0
    wherever the logarithm of the selected probability, the predicted value
    and the liveness weight of the cell are real numbers. *)
Lemma crop_last_loss_zero (policy : tensor3 val) (state_values : matrix val)
    (actions : matrix Z) (rewards : matrix val) (is_alive : liveness val)
    (target : option (matrix val)) (n_steps : option Z)
    (gamma_or_gammas : discount val) (force : bool) (after : after_end val)
    (cvrc cpvc : bool) (min_proba : R) (probas loss : matrix val)
    (b : nat) (row : list val) (v p : R) :
  get_elementwise_objective policy state_values actions rewards is_alive
    target n_steps gamma_or_gammas true force after cvrc cpvc min_proba
    = Ok loss ->
  nth_error state_values b = Some row ->
  nth_error row (length row - 1) = Some (Fin v) ->
  get_action_Qvalues policy actions = Ok probas ->
  cell probas b (length row - 1) = Some (Fin p) ->
  0 < p \/ (p = 0 /\ 0 < floatX min_proba) ->
  (forall alive, is_alive = Mask alive ->
     exists a, cell alive b (length row - 1) = Some (Fin a)) ->
  cell loss b (length row - 1) = Some (Fin 0).
Proof.
  intros Hl Hrow Hlast Hq Hp Hpos Halive.
  destruct (get_elementwise_objective_inv _ _ _ _ _ _ _ _ _ _ _ _ _ _ Hl)
    as (reference & tm & _ & Ht & Hm).
  set (t := (length row - 1)%nat) in *.
  assert (Href : cell (reference_state_values tm) b t = Some (Fin v)).
  { destruct (crop_last_cell _ _ _ _ _ _ _ _ b Ht Hrow) as [Hc _].
    fold t in Hc. rewrite Hlast in Hc. destruct cvrc; exact Hc. }
  assert (Hverr : cell (V_err_elwise tm) b t = Some (Fin 0)).
  { rewrite (V_err_cell _ _ _ _ _ _ _ _ _ b t Ht), Href.
    unfold cell at 1. rewrite Hrow, Hlast. simpl. do 2 f_equal. ring. }
  destruct (objective_terms_spec _ _ _ _ _ _ _ _ _ Ht)
    as (Hmask & Hq' & _ & _ & Hobs & _ & _).
  assert (action_probas tm = probas) by congruence.
  assert (Hlog : exists l, cell (log_probas tm) b t = Some (Fin l)).
  { rewrite (log_probas_cell _ _ _ _ _ _ _ _ _ b t Ht).
    replace (action_probas tm) with probas. rewrite Hp. simpl.
    destruct (@log_proba_finite min_proba p Hpos) as [l El]. exists l. rewrite El. reflexivity. }
  destruct Hlog as [l Hlog].
  assert (Ho : cell (observed_state_values tm) b t = Some (Fin v)).
  { rewrite Hobs. destruct cpvc; [rewrite consider_constant_val|];
      unfold cell; rewrite Hrow; exact Hlast. }
  assert (Hpl : cell (policy_loss_elwise tm) b t = Some (Fin (- l * (v - v)))).
  { rewrite (policy_loss_cell _ _ _ _ _ _ _ _ _ b t Ht), Hlog, Href, Ho.
    reflexivity. }
  rewrite (masked_loss_cell _ b t Hm), Hpl, Hverr.
  assert (Hmk : exists a, cell (is_alive_mask tm) b t = Some (Fin a)).
  { rewrite Hmask. destruct is_alive as [|alive].
    - unfold ones_like. rewrite cell_map_matrix.
      destruct (cell actions b t) eqn:Ea; [exists 1; reflexivity|].
      exfalso. unfold get_action_Qvalues in Hq.
      unfold cell in Hp, Ea.
      pose proof (zip_with_nth _ _ _ Hq b) as Hb.
      destruct (nth_error policy b) as [pr|], (nth_error actions b) as [ar|],
        (nth_error probas b) as [qr|]; try contradiction; try discriminate.
      pose proof (zip_with_nth _ _ _ Hb t) as Hc.
      rewrite Ea, Hp in Hc.
      destruct (nth_error pr t); contradiction.
    - apply Halive. reflexivity. }
  destruct Hmk as [a Hmk]. rewrite Hmk. simpl. do 2 f_equal. ring.
Qed.

(** C3.  With a liveness mask and [force_values_after_end], a cell at an
    episode boundary (the next cell of its row is dead while it is alive, or
    it is in the last column) gets the reward alone when
    [state_values_after_end] is ["zeros"], and the reward plus the discounted
    after-end value of its row when after-end values are given; every other
    cell keeps the value of the recurrence. *)
Theorem forced_values_after_end (state_values rewards alive : matrix val)
    (target : option (matrix val)) (n_steps : option Z)
    (gamma_or_gammas : discount val) (after : after_end val)
    (recurrence forced : matrix val) (b t : nat) (a : val) :
  get_n_step_value_reference
    (match target with None => state_values | Some x => x end)
    rewards (Mask alive) n_steps after gamma_or_gammas = Ok recurrence ->
  reference_values state_values rewards (Mask alive) target n_steps
    gamma_or_gammas true after = Ok forced ->
  cell alive b t = Some a ->
  if match cell alive b (S t) with
     | None => true
     | Some a' => negb (vis_zero a) && vis_zero a'
     end
  then
    match after with
    | Zeros => exists r, cell rewards b t = Some r /\ cell forced b t = Some r
    | AfterEnd m =>
        exists g r v,
          gamma_or_gammas = Gamma g /\ cell rewards b t = Some r /\
          cell m b 0 = Some v /\
          cell forced b t = Some (vadd r (vmul (Fin g) v))
    end
  else cell forced b t = cell recurrence b t.
Proof.
  intros Hrec Hf Ha.
  destruct (reference_values_forced _ _ _ _ _ _ _ Hf)
    as (recurrence' & Hrec' & Hout & Hin).
  assert (recurrence' = recurrence) by congruence. subst recurrence'.
  pose proof (end_indicator_cell _ _ _ Ha) as He.
  pose proof (nonzero_in (get_end_indicator alive true) b t) as Hnz.
  rewrite He in Hnz.
  destruct (match cell alive b (S t) with
            | None => true
            | Some a' => negb (vis_zero a) && vis_zero a'
            end).
  - apply Hin. apply Hnz. exists (Fin 1). split; [reflexivity|].
    simpl. apply Rzero_neq. lra.
  - apply Hout. intros Hc. apply Hnz in Hc. destruct Hc as (e & Ee & Hz).
    injection Ee as <-. simpl in Hz. rewrite Rzero_0 in Hz. discriminate.
Qed.

(** C1.  One row of three steps, [gamma = 0.9], always alive, rewards
    [1,1,1], state values [0,0,0], unbounded [n_steps], after-end values
    ["zeros"]: the reference values are [2.71, 1.9, 1.0]; with [crop_last]
    the last reference becomes the predicted value 0 and the value term at
    [t = 2] is 0. *)
Theorem concrete_scenario :
  let state_values := [[Fin 0; Fin 0; Fin 0]] in
  let rewards := [[Fin 1; Fin 1; Fin 1]] in
  let reference := [[Fin 2.71; Fin 1.9; Fin 1]] in
  get_n_step_value_reference state_values rewards Always None Zeros (Gamma 0.9)
    = Ok reference /\
  (forall force,
     reference_values state_values rewards Always None None (Gamma 0.9)
       force Zeros = Ok reference) /\
  (forall policy actions cvrc cpvc min_proba tm,
     objective_terms policy state_values actions Always reference true
       cvrc cpvc min_proba = Ok tm ->
     reference_state_values tm = [[Fin 2.71; Fin 1.9; Fin 0]] /\
     cell (V_err_elwise tm) 0 2 = Some (Fin 0)).
Proof.
  intros state_values rewards reference.
  assert (Hest : get_n_step_value_reference state_values rewards Always None
                   Zeros (Gamma 0.9) = Ok reference).
  { cbn. unfold reference. repeat f_equal; lra. }
  split; [exact Hest|]. split.
  - intros force. unfold reference_values. rewrite Hest. reflexivity.
  - intros policy actions cvrc cpvc min_proba tm Ht.
    destruct (objective_terms_spec _ _ _ _ _ _ _ _ _ Ht)
      as (_ & _ & (cropped & Hc & Href) & _).
    cbn in Hc. injection Hc as <-.
    assert (Hr : reference_state_values tm = [[Fin 2.71; Fin 1.9; Fin 0]]).
    { rewrite Href. destruct cvrc; [apply consider_constant_val | reflexivity]. }
    split; [exact Hr|].
    rewrite (V_err_cell _ _ _ _ _ _ _ _ _ 0 2 Ht), Hr. cbn.
    do 2 f_equal. ring.
Qed.

(** C6, amended.  At a cell whose selected probability is exactly 0 the
    logarithm used in the policy term is [log(0 + min_proba)] with
    [min_proba] cast to [floatX], a real number when the cast leaves
    [min_proba] positive; at a cell whose selected probability is not 0 the
    returned loss is the one the call returns with [min_proba = 0]. *)
Theorem log_proba_stabilised (policy : tensor3 val) (state_values : matrix val)
    (actions : matrix Z) (rewards : matrix val) (is_alive : liveness val)
    (target : option (matrix val)) (n_steps : option Z)
    (gamma_or_gammas : discount val) (crop_last force : bool)
    (after : after_end val) (cvrc cpvc : bool) (min_proba : R)
    (loss : matrix val) :
  get_elementwise_objective policy state_values actions rewards is_alive
    target n_steps gamma_or_gammas crop_last force after cvrc cpvc min_proba
    = Ok loss ->
  exists reference tm loss0,
    reference_values state_values rewards is_alive target n_steps
      gamma_or_gammas force after = Ok reference /\
    objective_terms policy state_values actions is_alive reference crop_last
      cvrc cpvc min_proba = Ok tm /\
    get_elementwise_objective policy state_values actions rewards is_alive
      target n_steps gamma_or_gammas crop_last force after cvrc cpvc 0
      = Ok loss0 /\
    forall b t p,
      cell (action_probas tm) b t = Some p ->
      (p = Fin 0 ->
         cell (log_probas tm) b t =
           Some (vlog (vadd (Fin 0) (Fin (floatX min_proba)))) /\
         (0 < floatX min_proba ->
            cell (log_probas tm) b t =
              Some (Fin (ln (0 + floatX min_proba))))) /\
      (vis_zero p = false -> cell loss b t = cell loss0 b t).
Proof.
  intros Hl.
  destruct (get_elementwise_objective_inv _ _ _ _ _ _ _ _ _ _ _ _ _ _ Hl)
    as (reference & tm & Hr & Ht & Hm).
  destruct (@objective_terms_min_proba _ _ policy state_values actions
              is_alive reference crop_last cvrc cpvc min_proba 0 tm Ht)
    as (tm0 & Ht0 & Emask & Eprobas & Eref & Eobs & Everr & Sp).
  destruct (@masked_loss_total _ _ tm tm0 loss Hm Sp Everr Emask)
    as [loss0 Hm0].
  exists reference, tm, loss0. split; [exact Hr|]. split; [exact Ht|]. split.
  { unfold get_elementwise_objective. rewrite Hr. cbn [bind].
    rewrite Ht0. cbn [bind]. exact Hm0. }
  intros b t p Hp.
  pose proof (log_probas_cell _ _ _ _ _ _ _ _ _ b t Ht) as Hlog.
  rewrite Hp in Hlog. simpl in Hlog. split.
  - intros ->. assert (E : log_proba min_proba (Fin 0)
                         = vlog (vadd (Fin 0) (Fin (floatX min_proba)))).
    { unfold log_proba. destruct (Rzero min_proba) eqn:Ez.
      - apply Rzero_true in Ez. subst min_proba. simpl. rewrite floatX_0.
        replace (0 + 0) with 0 by ring. reflexivity.
      - simpl. rewrite Rzero_0. reflexivity. }
    rewrite Hlog, E. split; [reflexivity|].
    intros Hpos. simpl. rewrite Rpositive_pos by lra. reflexivity.
  - intros Hz.
    rewrite (masked_loss_cell _ b t Hm), (masked_loss_cell _ b t Hm0).
    rewrite (policy_loss_cell _ _ _ _ _ _ _ _ _ b t Ht).
    rewrite (policy_loss_cell _ _ _ _ _ _ _ _ _ b t Ht0).
    rewrite (log_probas_cell _ _ _ _ _ _ _ _ _ b t Ht0).
    rewrite Hlog, Eprobas, Hp, Eref, Eobs, Everr, Emask.
    assert (E : log_proba min_proba p = log_proba 0 p).
    { unfold log_proba. rewrite Rzero_0. simpl. rewrite Hz.
      destruct (Rzero min_proba); reflexivity. }
    simpl. rewrite E. reflexivity.
Qed.

End ValueClaims.

Ltac eval_val :=
  repeat first
    [ progress cbn
    | progress unfold get_elementwise_objective, reference_values,
        objective_terms, masked_loss, get_n_step_value_reference,
        get_action_Qvalues, log_proba, consider_constant, squared_error,
        elemwise, map_matrix, set_last_column, last_cell, set_last,
        advanced_index, nonzero, get_end_indicator
    | progress change (Pos.to_nat 1) with 1%nat
    | rewrite Rzero_0
    | rewrite Rzero_neq by lra
    | rewrite Rpositive_pos by lra
    | rewrite Rpositive_nonpos by lra ].

(** ** Sensitivities *)

Lemma map_removelast {B C : Type} (f : B -> C) (l : list B) :
  map f (removelast l) = removelast (map f l).
Proof.
  rewrite !removelast_firstn_len, length_map. symmetry. apply firstn_map.
Qed.

Section Sensitivity.

Open Scope R_scope.

(** [map_matrix primal x = map_matrix primal y]: two tensors with the same
    values, whatever their sensitivities. *)

Lemma same_values_shape (x y : matrix dual) :
  map_matrix primal x = map_matrix primal y -> shape x = shape y.
Proof.
  intros E. rewrite <- (shape_map_matrix primal x), E.
  apply shape_map_matrix.
Qed.

Lemma consider_constant_same_values (x y : matrix dual) :
  map_matrix primal x = map_matrix primal y -> consider_constant x = consider_constant y.
Proof.
  intros E.
  assert (G : forall z : matrix dual,
            consider_constant z
            = map_matrix (fun v => D v (Fin 0)) (map_matrix primal z)).
  { intros z. unfold consider_constant, map_matrix. rewrite map_map.
    apply map_ext. intros row. rewrite map_map. reflexivity. }
  rewrite (G x), (G y), E. reflexivity.
Qed.

Lemma consider_constant_cell (x : matrix dual) (b t : nat) (d : dual) :
  cell (consider_constant x) b t = Some d -> tangent d = Fin 0.
Proof.
  unfold consider_constant. rewrite cell_map_matrix.
  destruct (cell x b t) as [c|]; simpl; [|discriminate].
  intros E. injection E as <-. reflexivity.
Qed.

Lemma last_cell_same_values (y1 y2 : list dual) (v1 : dual) :
  map primal y1 = map primal y2 ->
  last_cell y1 = Ok v1 ->
  exists v2, last_cell y2 = Ok v2 /\ primal v1 = primal v2.
Proof.
  unfold last_cell. intros E H1.
  assert (L : length y1 = length y2).
  { rewrite <- (length_map primal y1), E. apply length_map. }
  assert (N : option_map primal (nth_error y1 (length y1 - 1))
              = option_map primal (nth_error y2 (length y1 - 1))).
  { rewrite <- !nth_error_map, E. reflexivity. }
  rewrite <- L.
  destruct (nth_error y1 (length y1 - 1)) as [a|]; [|discriminate].
  injection H1 as <-.
  destruct (nth_error y2 (length y1 - 1)) as [c|]; [|discriminate].
  exists c. split; [reflexivity|]. simpl in N. congruence.
Qed.

Lemma set_last_same_values (x1 x2 : list dual) (v1 v2 : dual) (z1 : list dual) :
  map primal x1 = map primal x2 ->
  primal v1 = primal v2 ->
  set_last x1 v1 = Ok z1 ->
  exists z2, set_last x2 v2 = Ok z2 /\ map primal z1 = map primal z2.
Proof.
  intros E Ev H1.
  assert (E1 : x1 <> [] /\ z1 = removelast x1 ++ [v1]).
  { destruct x1; [discriminate|]. unfold set_last in H1.
    split; [discriminate | congruence]. }
  destruct E1 as [Hne ->].
  destruct x2 as [|c x2]; [destruct x1; [contradiction | discriminate]|].
  exists (removelast (c :: x2) ++ [v2]). split; [reflexivity|].
  rewrite !map_app, !map_removelast, E. simpl. rewrite Ev. reflexivity.
Qed.

Lemma set_last_column_same_values :
  forall (x1 x2 y1 y2 c1 : matrix dual),
  map_matrix primal x1 = map_matrix primal x2 -> map_matrix primal y1 = map_matrix primal y2 ->
  set_last_column x1 y1 = Ok c1 ->
  exists c2, set_last_column x2 y2 = Ok c2 /\ map_matrix primal c1 = map_matrix primal c2.
Proof.
  unfold set_last_column.
  induction x1 as [|r1 x1 IH]; intros [|r2 x2] [|s1 y1] [|s2 y2] c1 Ex Ey H1;
    simpl in Ex, Ey, H1; try discriminate.
  - injection H1 as <-. exists []. split; reflexivity.
  - injection Ex as Er Ex. injection Ey as Es Ey.
    inv_bind H1. inv_bind H1. injection H1 as <-. inv_bind Hx.
    destruct (@last_cell_same_values s1 s2 x3 Es Hx1) as (v2 & Hv2 & Ev).
    destruct (@set_last_same_values r1 r2 x3 v2 x Er Ev Hx) as (z2 & Hz2 & Ez).
    destruct (IH x2 y1 y2 x0 Ex Ey Hx0) as (c2 & Hc2 & Ec).
    exists (z2 :: c2). simpl. rewrite Hv2. cbn [bind]. rewrite Hz2. cbn [bind].
    rewrite Hc2. cbn [bind]. split; [reflexivity|].
    unfold map_matrix in *. simpl. congruence.
Qed.

(** C7.  With [consider_value_reference_constant], the actor and critic
    terms, values and sensitivities alike, do not depend on the sensitivity
    of the reference they are given: no gradient reaches its producer; the
    value term keeps its sensitivity to [state_values], [-2 (reference -
    value)] times the perturbation.  With
    [consider_predicted_value_constant], whatever the other flags, the
    predicted value of a cell contributes no derivative to the policy term
    of that cell, whose derivative is [- dlog * (reference - value) - log *
    dreference], while the value term still carries [2 (reference - value)
    (dreference - dvalue)]; the policy term as a whole does not depend on the
    sensitivity of [state_values] when [crop_last] is off or the reference
    is held constant too, and it does when [crop_last] copies the
    prediction into a reference that is not held constant. *)
Theorem gradient_blocking :
  (forall policy state_values actions is_alive reference1 reference2
          crop_last cpvc min_proba (tm : @terms dual),
     map_matrix primal reference1 = map_matrix primal reference2 ->
     objective_terms policy state_values actions is_alive reference1
       crop_last true cpvc min_proba = Ok tm ->
     objective_terms policy state_values actions is_alive reference2
       crop_last true cpvc min_proba = Ok tm) /\
  (forall policy state_values actions is_alive reference crop_last cpvc
          min_proba (tm : @terms dual) b t r dr v dv,
     objective_terms policy state_values actions is_alive reference
       crop_last true cpvc min_proba = Ok tm ->
     cell (reference_state_values tm) b t = Some (D (Fin r) dr) ->
     cell state_values b t = Some (D (Fin v) (Fin dv)) ->
     dr = Fin 0 /\
     cell (V_err_elwise tm) b t =
       Some (D (Fin ((r - v) * (r - v))) (Fin (-2 * (r - v) * dv))) /\
     (r <> v -> dv <> 0 -> -2 * (r - v) * dv <> 0)) /\
  (forall policy state_values actions is_alive reference crop_last cvrc
          min_proba (tm : @terms dual) b t l dl r dr v dv,
     objective_terms policy state_values actions is_alive reference
       crop_last cvrc true min_proba = Ok tm ->
     cell (log_probas tm) b t = Some (D (Fin l) (Fin dl)) ->
     cell (reference_state_values tm) b t = Some (D (Fin r) (Fin dr)) ->
     cell state_values b t = Some (D (Fin v) (Fin dv)) ->
     cell (observed_state_values tm) b t = Some (D (Fin v) (Fin 0)) /\
     cell (policy_loss_elwise tm) b t =
       Some (D (Fin (- l * (r - v))) (Fin (- dl * (r - v) - l * dr))) /\
     cell (V_err_elwise tm) b t =
       Some (D (Fin ((r - v) * (r - v))) (Fin (2 * (r - v) * (dr - dv))))) /\
  (forall policy state_values1 state_values2 actions is_alive reference
          crop_last cvrc min_proba (tm1 : @terms dual),
     crop_last = false \/ cvrc = true ->
     map_matrix primal state_values1 = map_matrix primal state_values2 ->
     objective_terms policy state_values1 actions is_alive reference
       crop_last cvrc true min_proba = Ok tm1 ->
     exists tm2,
       objective_terms policy state_values2 actions is_alive reference
         crop_last cvrc true min_proba = Ok tm2 /\
       policy_loss_elwise tm2 = policy_loss_elwise tm1) /\
  (exists tm1 tm2,
     objective_terms [[[D (Fin 0.5) (Fin 0)]]] [[D (Fin 2) (Fin 0)]] [[0%Z]]
       Always [[D (Fin 5) (Fin 0)]] true false true 0 = Ok tm1 /\
     objective_terms [[[D (Fin 0.5) (Fin 0)]]] [[D (Fin 2) (Fin 1)]] [[0%Z]]
       Always [[D (Fin 5) (Fin 0)]] true false true 0 = Ok tm2 /\
     policy_loss_elwise tm1 <> policy_loss_elwise tm2).
Proof.
  split; [|split; [|split; [|split]]].
  - intros policy state_values actions is_alive reference1 reference2
      crop_last cpvc min_proba tm E Ht.
    unfold objective_terms in *.
    destruct (get_action_Qvalues policy actions) as [probas|];
      cbn [bind] in *; [|discriminate].
    destruct crop_last.
    + destruct (set_last_column reference1 state_values) as [c1|] eqn:E1;
        cbn [bind] in Ht; [|discriminate].
      destruct (@set_last_column_same_values reference1 reference2
                  state_values state_values c1 E eq_refl E1)
        as (c2 & E2 & Ec).
      rewrite E2. cbn [bind].
      rewrite <- (consider_constant_same_values _ _ Ec). exact Ht.
    + cbn [bind] in *.
      rewrite <- (consider_constant_same_values _ _ E). exact Ht.
  - intros policy state_values actions is_alive reference crop_last cpvc
      min_proba tm b t r dr v dv Ht Hr Hv.
    destruct (objective_terms_spec _ _ _ _ _ _ _ _ _ Ht)
      as (_ & _ & (cropped & _ & Href) & _).
    assert (Hdr : dr = Fin 0).
    { rewrite Href in Hr. apply consider_constant_cell in Hr. exact Hr. }
    subst dr. split; [reflexivity|]. split.
    + rewrite (V_err_cell _ _ _ _ _ _ _ _ _ b t Ht), Hr, Hv. simpl.
      do 2 f_equal; f_equal; ring.
    + intros Hne Hd. apply Rmult_integral_contrapositive_currified; [|exact Hd].
      apply Rmult_integral_contrapositive_currified; lra.
  - intros policy state_values actions is_alive reference crop_last cvrc
      min_proba tm b t l dl r dr v dv Ht Hl Hr Hv.
    destruct (objective_terms_spec _ _ _ _ _ _ _ _ _ Ht)
      as (_ & _ & _ & _ & Hobs & _ & _).
    assert (Ho : cell (observed_state_values tm) b t
                 = Some (D (Fin v) (Fin 0))).
    { rewrite Hobs. unfold consider_constant.
      rewrite cell_map_matrix, Hv. reflexivity. }
    split; [exact Ho|]. split.
    + rewrite (policy_loss_cell _ _ _ _ _ _ _ _ _ b t Ht), Hl, Hr, Ho. simpl.
      do 2 f_equal; f_equal; ring.
    + rewrite (V_err_cell _ _ _ _ _ _ _ _ _ b t Ht), Hr, Hv. simpl.
      do 2 f_equal; f_equal; ring.
  - intros policy state_values1 state_values2 actions is_alive reference
      crop_last cvrc min_proba tm1 Hor E Ht.
    pose proof (consider_constant_same_values _ _ E) as Eobs.
    pose proof (same_values_shape _ _ E) as Eshape.
    unfold objective_terms in *.
    destruct (get_action_Qvalues policy actions) as [probas|];
      cbn [bind] in *; [|discriminate].
    assert (Hc : forall c1,
              (if crop_last then set_last_column reference state_values1
               else Ok reference) = Ok c1 ->
              exists c2,
                (if crop_last then set_last_column reference state_values2
                 else Ok reference) = Ok c2 /\
                (if cvrc then consider_constant c2 else c2)
                = (if cvrc then consider_constant c1 else c1)).
    { intros c1 H1. destruct crop_last.
      - destruct Hor as [Hf| ->]; [discriminate|].
        destruct (@set_last_column_same_values reference reference
                    state_values1 state_values2 c1 eq_refl E H1)
          as (c2 & E2 & Ec).
        exists c2. split; [exact E2|]. symmetry.
        apply consider_constant_same_values. exact Ec.
      - exists c1. split; [exact H1 | reflexivity]. }
    destruct (if crop_last then set_last_column reference state_values1
              else Ok reference) as [c1|]; cbn [bind] in Ht; [|discriminate].
    destruct (Hc c1 eq_refl) as (c2 & E2 & Ec). rewrite E2. cbn [bind].
    rewrite Ec, <- Eobs.
    destruct (elemwise sub _ _) as [adv|]; cbn [bind] in *; [|discriminate].
    destruct (elemwise _ _ adv) as [pl|]; cbn [bind] in *; [|discriminate].
    destruct (squared_error (if cvrc then consider_constant c1 else c1)
                state_values1) as [ve1|] eqn:Ev1; cbn [bind] in Ht;
      [|discriminate].
    injection Ht as <-.
    destruct (elemwise_shape _ _ _ Ev1) as [S1 S2].
    destruct (elemwise_total (fun x y : dual => mul (sub x y) (sub x y))
                (if cvrc then consider_constant c1 else c1) state_values2)
      as [ve2 Ev2]; [congruence|].
    unfold squared_error. rewrite Ev2. cbn [bind].
    eexists. split; reflexivity.
  - eexists. eexists. split; [eval_val; reflexivity|].
    split; [eval_val; reflexivity|].
    simpl. intros Heq. injection Heq as Heq.
    assert (Hln : ln 0.5 < 0).
    { rewrite <- ln_1. apply ln_increasing; lra. }
    lra.
Qed.

End Sensitivity.

(** ** Shapes, cropping and forcing *)

Lemma zip_with_rows_shape {B C E : Type} (f : B -> C -> result E) :
  forall (x : matrix B) (y : matrix C) (z : matrix E),
  zip_with (zip_with f) x y = Ok z -> shape x = shape z /\ shape y = shape z.
Proof.
  induction x as [|xr x IH]; intros [|yr y] z Hz; simpl in Hz; try discriminate.
  - injection Hz as <-. split; reflexivity.
  - inv_bind Hz. inv_bind Hz. injection Hz as <-.
    destruct (IH _ _ Hx0) as [H1 H2].
    destruct (zip_with_length _ _ _ Hx) as [L1 L2].
    simpl. split; congruence.
Qed.

Section Shapes.

Context {A : Type} `{Scalar A}.

Lemma set_nth_same {B : Type} :
  forall (l : list B) (i : nat) (v : B),
  nth_error l i = Some v -> set_nth l i v = Some l.
Proof.
  induction l as [|x l IH]; intros [|i] v Hv; simpl in *; try discriminate.
  - congruence.
  - rewrite (IH _ _ Hv). reflexivity.
Qed.

Lemma set_cell_same (x : matrix A) (b t : nat) (v : A) :
  cell x b t = Some v -> set_cell x b t v = Some x.
Proof.
  unfold cell, set_cell. destruct (nth_error x b) as [row|] eqn:Er; [|discriminate].
  intros Hv. rewrite (set_nth_same _ _ Hv). apply set_nth_same. exact Er.
Qed.

Lemma set_subtensor_again :
  forall (ids : list (nat * nat)) (x : matrix A) (ys : list A) (x' : matrix A),
  NoDup ids ->
  set_subtensor x ids ys = Ok x' -> set_subtensor x' ids ys = Ok x'.
Proof.
  induction ids as [|[b t] ids IH]; intros x [|y ys] x' Hnd Hs; simpl in Hs;
    try discriminate.
  - reflexivity.
  - inv_bind Hs. simpl in Hx.
    destruct (set_cell x b t y) as [x1|] eqn:Ec; [|discriminate].
    injection Hx as <-.
    inversion Hnd as [|? ? Hnotin Hnd']; subst.
    destruct (set_subtensor_spec _ _ Hs Hnd') as [_ Hout].
    destruct (set_cell_spec _ _ _ _ Ec) as [Hset _].
    simpl. rewrite set_cell_same by (rewrite (Hout _ _ Hnotin); exact Hset).
    simpl. apply (IH x1); assumption.
Qed.

Lemma reference_values_terminal_override (state_values rewards alive : matrix A)
    (target : option (matrix A)) (n_steps : option Z)
    (gamma_or_gammas : discount A) (after : after_end A) :
  reference_values state_values rewards (Mask alive) target n_steps
    gamma_or_gammas true after =
  (recurrence <-
     get_n_step_value_reference
       (match target with None => state_values | Some x => x end)
       rewards (Mask alive) n_steps after gamma_or_gammas ;;
   terminal_override rewards alive gamma_or_gammas after recurrence).
Proof.
  unfold reference_values, terminal_override.
  destruct (get_n_step_value_reference _ _ _ _ _ _); [|reflexivity].
  destruct after; reflexivity.
Qed.

(** X1.  Forcing the values at session ends is idempotent: applied to its
    own result, the step of lines 87-96 succeeds and returns that result
    unchanged. *)
Theorem terminal_override_idempotent (rewards alive : matrix A)
    (gamma_or_gammas : discount A) (after : after_end A)
    (reference forced : matrix A) :
  terminal_override rewards alive gamma_or_gammas after reference = Ok forced ->
  terminal_override rewards alive gamma_or_gammas after forced = Ok forced.
Proof.
  unfold terminal_override. intros Hf.
  pose proof (nonzero_nodup (get_end_indicator alive true)) as Hnd.
  destruct after as [|m].
  - inv_bind Hf. rewrite Hx. cbn [bind].
    apply (set_subtensor_again _ _ Hnd Hf).
  - inv_bind Hf. inv_bind Hf. inv_bind Hf. inv_bind Hf.
    rewrite Hx. cbn [bind]. rewrite Hx0. cbn [bind].
    rewrite Hx1. cbn [bind]. rewrite Hx2. cbn [bind].
    destruct x2 as [ys|m']; simpl in *; [|discriminate].
    apply (set_subtensor_again _ _ Hnd Hf).
Qed.

(** X2.  An array of discounts cannot be combined with a liveness mask,
    forced end values and explicit after-end values: the product of line 95
    has two dimensions, line 96 cannot write it into the vector
    [reference_state_values[end_ids]], and the call returns no loss. *)
Theorem gammas_with_after_end_rejected (policy : tensor3 A)
    (state_values : matrix A) (actions : matrix Z) (rewards alive : matrix A)
    (target : option (matrix A)) (n_steps : option Z) (gs after : matrix A)
    (crop_last cvrc cpvc : bool) (min_proba : R) :
  exists e,
    get_elementwise_objective policy state_values actions rewards (Mask alive)
      target n_steps (Gammas gs) crop_last true (AfterEnd after) cvrc cpvc
      min_proba = Err e.
Proof.
  unfold get_elementwise_objective.
  destruct (reference_values_gammas_error state_values rewards alive target
              n_steps gs after) as [e He].
  exists e. rewrite He. reflexivity.
Qed.

(** X3.  A returned loss has the shape of [state_values], of [actions] and
    of the liveness mask when one is given: inputs of different shapes never
    yield a loss. *)
Theorem loss_shape (policy : tensor3 A) (state_values : matrix A)
    (actions : matrix Z) (rewards : matrix A) (is_alive : liveness A)
    (target : option (matrix A)) (n_steps : option Z)
    (gamma_or_gammas : discount A) (crop_last force : bool)
    (after : after_end A) (cvrc cpvc : bool) (min_proba : R)
    (loss : matrix A) :
  get_elementwise_objective policy state_values actions rewards is_alive
    target n_steps gamma_or_gammas crop_last force after cvrc cpvc min_proba
    = Ok loss ->
  shape loss = shape state_values /\
  shape loss = shape actions /\
  match is_alive with
  | Always => True
  | Mask alive => shape loss = shape alive
  end.
Proof.
  intros Hl.
  destruct (get_elementwise_objective_inv _ _ _ _ _ _ _ _ _ _ _ _ _ _ Hl)
    as (reference & tm & _ & Ht & Hm).
  destruct (objective_terms_spec _ _ _ _ _ _ _ _ _ Ht)
    as (Hmask & Hq & _ & Hlog & _ & (adv & _ & Hp) & Hv).
  unfold masked_loss in Hm. inv_bind Hm. rename x into total.
  destruct (elemwise_shape _ _ _ Hx) as [S1 S2].
  destruct (elemwise_shape _ _ _ Hm) as [S3 S4].
  destruct (elemwise_shape _ _ _ Hv) as [S5 S6].
  destruct (elemwise_shape _ _ _ Hp) as [S7 _].
  destruct (zip_with_rows_shape _ _ _ Hq) as [_ S8].
  rewrite Hlog, shape_map_matrix in S7.
  split; [congruence|]. split; [congruence|].
  destruct is_alive as [|alive]; [exact I|]. rewrite Hmask in S4. congruence.
Qed.

(** X4.  Cropping touches the last column only: with [crop_last] every cell
    of the reference before the last cell of its row is, up to
    [consider_constant], the cell the return estimator produced, and the
    reference keeps its shape. *)
Theorem crop_last_keeps_other_columns (policy : tensor3 A)
    (state_values : matrix A) (actions : matrix Z) (is_alive : liveness A)
    (reference : matrix A) (cvrc cpvc : bool) (min_proba : R) (tm : terms)
    (b t : nat) (row : list A) :
  objective_terms policy state_values actions is_alive reference true
    cvrc cpvc min_proba = Ok tm ->
  nth_error reference b = Some row ->
  (t < length row - 1)%nat ->
  cell (reference_state_values tm) b t =
    option_map (if cvrc then constant_cell else fun v => v) (nth_error row t) /\
  shape (reference_state_values tm) = shape reference.
Proof.
  intros Ht Hrow Hlt.
  destruct (objective_terms_spec _ _ _ _ _ _ _ _ _ Ht)
    as (_ & _ & (cropped & Hc & Href) & _).
  assert (Hcells : cell cropped b t = nth_error row t).
  { unfold set_last_column in Hc.
    pose proof (zip_with_nth _ _ _ Hc b) as Hb. rewrite Hrow in Hb.
    destruct (nth_error state_values b) as [yrow|]; [|contradiction].
    unfold cell. destruct (nth_error cropped b) as [zrow|]; [|contradiction].
    inv_bind Hb. destruct (set_last_spec _ _ Hb) as (_ & _ & Hkeep).
    apply Hkeep. exact Hlt. }
  assert (Hshape : shape cropped = shape reference).
  { clear - Hc. unfold set_last_column in Hc.
    revert state_values cropped Hc.
    induction reference as [|xr x IH]; intros [|yr y] z Hz; simpl in Hz;
      try discriminate.
    - injection Hz as <-. reflexivity.
    - inv_bind Hz. inv_bind Hz. injection Hz as <-. inv_bind Hx.
      destruct (set_last_spec _ _ Hx) as (Hl & _).
      simpl. rewrite Hl, (IH _ _ Hx0). reflexivity. }
  rewrite Href. destruct cvrc.
  - unfold consider_constant. rewrite cell_map_matrix, shape_map_matrix, Hcells.
    split; [reflexivity | exact Hshape].
  - rewrite Hcells. destruct (nth_error row t); split; auto.
Qed.

(** X5.  Cropping needs a last column: when a call with [crop_last]
    succeeds, every row of [state_values] has at least one time step. *)
Theorem crop_last_needs_a_column (policy : tensor3 A)
    (state_values : matrix A) (actions : matrix Z) (is_alive : liveness A)
    (reference : matrix A) (cvrc cpvc : bool) (min_proba : R) (tm : terms)
    (row : list A) :
  objective_terms policy state_values actions is_alive reference true
    cvrc cpvc min_proba = Ok tm ->
  In row state_values -> row <> [].
Proof.
  intros Ht Hin.
  destruct (In_nth_error _ _ Hin) as [b Hb].
  destruct (crop_last_cell _ _ _ _ _ _ _ _ b Ht Hb) as [_ Hlast].
  intros ->. apply Hlast. reflexivity.
Qed.

End Shapes.

(** ** The loss, cell by cell *)

Section LossValues.

Open Scope R_scope.

Lemma vsquare_sym (r v : val) : vmul (vsub r v) (vsub r v) = vmul (vsub v r) (vsub v r).
Proof. destruct r, v; simpl; try reflexivity. f_equal. ring. Qed.

(** X6.  Every cell of the returned loss is the formula of the docstring,
    [L_policy + L_V] weighted by liveness:
    [(- log_proba * (V_reference - V) + (V - V_reference)^2) * is_alive],
    where [is_alive] is 1 for ["always"]. *)
Theorem loss_cell_formula (policy : tensor3 val) (state_values : matrix val)
    (actions : matrix Z) (rewards : matrix val) (is_alive : liveness val)
    (target : option (matrix val)) (n_steps : option Z)
    (gamma_or_gammas : discount val) (crop_last force : bool)
    (after : after_end val) (cvrc cpvc : bool) (min_proba : R)
    (loss : matrix val) :
  get_elementwise_objective policy state_values actions rewards is_alive
    target n_steps gamma_or_gammas crop_last force after cvrc cpvc min_proba
    = Ok loss ->
  exists reference tm,
    reference_values state_values rewards is_alive target n_steps
      gamma_or_gammas force after = Ok reference /\
    objective_terms policy state_values actions is_alive reference crop_last
      cvrc cpvc min_proba = Ok tm /\
    forall b t,
      cell loss b t =
        match cell (action_probas tm) b t,
              cell (reference_state_values tm) b t,
              cell state_values b t,
              match is_alive with
              | Always => option_map (fun _ => Fin 1) (cell actions b t)
              | Mask alive => cell alive b t
              end with
        | Some p, Some r, Some v, Some a =>
            Some (vmul (vadd (vmul (vneg (log_proba min_proba p)) (vsub r v))
                             (vmul (vsub v r) (vsub v r))) a)
        | _, _, _, _ => None
        end.
Proof.
  intros Hl.
  destruct (get_elementwise_objective_inv _ _ _ _ _ _ _ _ _ _ _ _ _ _ Hl)
    as (reference & tm & Hr & Ht & Hm).
  exists reference, tm. split; [exact Hr|]. split; [exact Ht|]. intros b t.
  destruct (objective_terms_spec _ _ _ _ _ _ _ _ _ Ht)
    as (Hmask & _ & _ & _ & Hobs & _ & _).
  rewrite (masked_loss_cell _ b t Hm).
  rewrite (policy_loss_cell _ _ _ _ _ _ _ _ _ b t Ht).
  rewrite (V_err_cell _ _ _ _ _ _ _ _ _ b t Ht).
  rewrite (log_probas_cell _ _ _ _ _ _ _ _ _ b t Ht).
  assert (Ho : observed_state_values tm = state_values).
  { rewrite Hobs. destruct cpvc; [apply consider_constant_val | reflexivity]. }
  assert (Ha : cell (is_alive_mask tm) b t =
               match is_alive with
               | Always => option_map (fun _ => Fin 1) (cell actions b t)
               | Mask alive => cell alive b t
               end).
  { rewrite Hmask. destruct is_alive; [|reflexivity].
    unfold ones_like. apply cell_map_matrix. }
  rewrite Ho, Ha.
  destruct (cell (action_probas tm) b t) as [p|]; simpl; [|reflexivity].
  destruct (cell (reference_state_values tm) b t) as [r|]; [|reflexivity].
  destruct (cell state_values b t) as [v|]; [|reflexivity].
  rewrite (vsquare_sym r v). reflexivity.
Qed.

(** X7.  The policy term of a cell is never a real number when the selected
    probability is negative, or is zero while [min_proba], cast to [floatX],
    is not positive (zero, too small for [floatX], or negative). *)
Theorem policy_term_not_finite (policy : tensor3 val)
    (state_values : matrix val) (actions : matrix Z) (is_alive : liveness val)
    (reference : matrix val) (crop_last cvrc cpvc : bool) (min_proba : R)
    (tm : terms) (b t : nat) (p x : R) :
  objective_terms policy state_values actions is_alive reference crop_last
    cvrc cpvc min_proba = Ok tm ->
  cell (action_probas tm) b t = Some (Fin p) ->
  p < 0 \/ (p = 0 /\ floatX min_proba <= 0) ->
  cell (policy_loss_elwise tm) b t <> Some (Fin x).
Proof.
  intros Ht Hp Hneg.
  assert (Hl : log_proba min_proba (Fin p) = NonFin).
  { unfold log_proba. simpl. destruct (Rzero min_proba) eqn:Em.
    - rewrite Rpositive_nonpos by lra. reflexivity.
    - destruct (Rzero p) eqn:Ep.
      + apply Rzero_true in Ep. subst p. simpl.
        rewrite Rpositive_nonpos by lra. reflexivity.
      + rewrite Rpositive_nonpos by lra. reflexivity. }
  rewrite (policy_loss_cell _ _ _ _ _ _ _ _ _ b t Ht).
  rewrite (log_probas_cell _ _ _ _ _ _ _ _ _ b t Ht), Hp. simpl. rewrite Hl.
  destruct (cell (reference_state_values tm) b t);
    destruct (cell (observed_state_values tm) b t); simpl; discriminate.
Qed.

(** X8.  A value term that is a real number is never negative, and it is 0
    wherever the predicted value is the reference. *)
Theorem value_term_nonnegative (policy : tensor3 val)
    (state_values : matrix val) (actions : matrix Z) (is_alive : liveness val)
    (reference : matrix val) (crop_last cvrc cpvc : bool) (min_proba : R)
    (tm : terms) (b t : nat) :
  objective_terms policy state_values actions is_alive reference crop_last
    cvrc cpvc min_proba = Ok tm ->
  (forall e, cell (V_err_elwise tm) b t = Some (Fin e) -> 0 <= e) /\
  (forall r,
     cell (reference_state_values tm) b t = Some (Fin r) ->
     cell state_values b t = Some (Fin r) ->
     cell (V_err_elwise tm) b t = Some (Fin 0)).
Proof.
  intros Ht. rewrite (V_err_cell _ _ _ _ _ _ _ _ _ b t Ht). split.
  - intros e He.
    destruct (cell (reference_state_values tm) b t) as [[r|]|];
      destruct (cell state_values b t) as [[v|]|]; simpl in He;
      try discriminate.
    injection He as <-. exact (Rle_0_sqr (r - v)).
  - intros r Hr Hv. rewrite Hr, Hv. simpl. do 2 f_equal. ring.
Qed.

End LossValues.

(** ** What the gradient-blocking flags change *)

Section Flags.

Open Scope R_scope.

Variables f g : dual -> dual -> dual.

Hypothesis same_primal :
  forall a a' c c',
    primal a = primal a' -> primal c = primal c' ->
    primal (f a c) = primal (g a' c').

Lemma zip_with_same_values :
  forall (xs xs' ys ys' zs : list dual),
  map primal xs = map primal xs' -> map primal ys = map primal ys' ->
  zip_with (fun a c => Ok (f a c)) xs ys = Ok zs ->
  exists zs',
    zip_with (fun a c => Ok (g a c)) xs' ys' = Ok zs' /\
    map primal zs = map primal zs'.
Proof.
  induction xs as [|x xs IH]; intros [|x' xs'] [|y ys] [|y' ys'] zs Ex Ey Hz;
    simpl in Ex, Ey, Hz; try discriminate.
  - injection Hz as <-. exists []. split; reflexivity.
  - injection Ex as Ex0 Ex. injection Ey as Ey0 Ey.
    inv_bind Hz. injection Hz as <-.
    destruct (IH _ _ _ _ Ex Ey Hx) as (zs' & Hz' & Ez).
    exists (g x' y' :: zs'). simpl. rewrite Hz'. split; [reflexivity|].
    simpl. rewrite Ez, (same_primal _ _ _ _ Ex0 Ey0). reflexivity.
Qed.

Lemma elemwise_same_values :
  forall (x x' y y' z : matrix dual),
  map_matrix primal x = map_matrix primal x' ->
  map_matrix primal y = map_matrix primal y' ->
  elemwise f x y = Ok z ->
  exists z', elemwise g x' y' = Ok z' /\ map_matrix primal z = map_matrix primal z'.
Proof.
  unfold elemwise, map_matrix.
  induction x as [|xr x IH]; intros [|xr' x'] [|yr y] [|yr' y'] z Ex Ey Hz;
    simpl in Ex, Ey, Hz; try discriminate.
  - injection Hz as <-. exists []. split; reflexivity.
  - injection Ex as Ex0 Ex. injection Ey as Ey0 Ey.
    inv_bind Hz. inv_bind Hz. injection Hz as <-.
    destruct (zip_with_same_values _ _ _ _ Ex0 Ey0 Hx) as (zr' & Hzr & Ezr).
    destruct (IH _ _ _ _ Ex Ey Hx0) as (z' & Hz' & Ez).
    exists (zr' :: z'). simpl. rewrite Hzr. cbn [bind]. rewrite Hz'.
    split; [reflexivity|]. simpl. congruence.
Qed.

End Flags.

Section FlagClaims.

Open Scope R_scope.

Lemma consider_constant_primal (x : matrix dual) :
  map_matrix primal (consider_constant x) = map_matrix primal x.
Proof.
  unfold consider_constant, map_matrix. rewrite map_map.
  apply map_ext. intros row. rewrite map_map. reflexivity.
Qed.

Ltac primal_congruence :=
  intros a a' c c' Ea Ec; simpl; rewrite Ea, Ec; reflexivity.

Lemma sub_primal (a a' c c' : dual) :
  primal a = primal a' -> primal c = primal c' ->
  primal (sub a c) = primal (sub a' c').
Proof. revert a a' c c'. primal_congruence. Qed.

Lemma add_primal (a a' c c' : dual) :
  primal a = primal a' -> primal c = primal c' ->
  primal (add a c) = primal (add a' c').
Proof. revert a a' c c'. primal_congruence. Qed.

Lemma mul_primal (a a' c c' : dual) :
  primal a = primal a' -> primal c = primal c' ->
  primal (mul a c) = primal (mul a' c').
Proof. revert a a' c c'. primal_congruence. Qed.

Lemma mul_neg_primal (a a' c c' : dual) :
  primal a = primal a' -> primal c = primal c' ->
  primal (mul (neg a) c) = primal (mul (neg a') c').
Proof. revert a a' c c'. primal_congruence. Qed.

Lemma square_sub_primal (a a' c c' : dual) :
  primal a = primal a' -> primal c = primal c' ->
  primal (mul (sub a c) (sub a c)) = primal (mul (sub a' c') (sub a' c')).
Proof. revert a a' c c'. primal_congruence. Qed.

(** X9.  The gradient-blocking flags change no value: two calls that differ
    only in [consider_value_reference_constant] and
    [consider_predicted_value_constant] succeed together and return losses
    with the same values; only the sensitivities can differ. *)
Theorem flags_keep_values (policy : tensor3 dual) (state_values : matrix dual)
    (actions : matrix Z) (rewards : matrix dual) (is_alive : liveness dual)
    (target : option (matrix dual)) (n_steps : option Z)
    (gamma_or_gammas : discount dual) (crop_last force : bool)
    (after : after_end dual) (cvrc cpvc cvrc' cpvc' : bool) (min_proba : R)
    (loss : matrix dual) :
  get_elementwise_objective policy state_values actions rewards is_alive
    target n_steps gamma_or_gammas crop_last force after cvrc cpvc min_proba
    = Ok loss ->
  exists loss',
    get_elementwise_objective policy state_values actions rewards is_alive
      target n_steps gamma_or_gammas crop_last force after cvrc' cpvc'
      min_proba = Ok loss' /\
    map_matrix primal loss = map_matrix primal loss'.
Proof.
  unfold get_elementwise_objective. intros Hl.
  destruct (reference_values _ _ _ _ _ _ _ _) as [reference|];
    cbn [bind] in *; [|discriminate].
  unfold objective_terms in *.
  destruct (get_action_Qvalues policy actions) as [probas|];
    cbn [bind] in *; [|discriminate].
  destruct (if crop_last then set_last_column reference state_values
            else Ok reference) as [cropped|]; cbn [bind] in *; [|discriminate].
  assert (Pref : map_matrix primal
                   (if cvrc then consider_constant cropped else cropped)
                 = map_matrix primal
                   (if cvrc' then consider_constant cropped else cropped)).
  { destruct cvrc, cvrc'; rewrite ?consider_constant_primal; reflexivity. }
  assert (Pobs : map_matrix primal
                   (if cpvc then consider_constant state_values
                    else state_values)
                 = map_matrix primal
                   (if cpvc' then consider_constant state_values
                    else state_values)).
  { destruct cpvc, cpvc'; rewrite ?consider_constant_primal; reflexivity. }
  destruct (elemwise sub _ _) as [adv|] eqn:Ea; cbn [bind] in Hl;
    [|discriminate].
  destruct (elemwise_same_values _ _ sub_primal _ _ _ _ Pref Pobs Ea)
    as (adv' & Ea' & Padv).
  rewrite Ea'. cbn [bind].
  destruct (elemwise _ _ adv) as [pl|] eqn:Ep; cbn [bind] in Hl;
    [|discriminate].
  destruct (elemwise_same_values _ _ mul_neg_primal _ _ _ _ eq_refl Padv Ep)
    as (pl' & Ep' & Ppl).
  rewrite Ep'. cbn [bind].
  destruct (squared_error _ state_values) as [ve|] eqn:Ev; cbn [bind] in Hl;
    [|discriminate].
  unfold squared_error in *.
  destruct (elemwise_same_values _ _ square_sub_primal _ _ _ _ Pref eq_refl Ev)
    as (ve' & Ev' & Pve).
  rewrite Ev'. cbn [bind].
  unfold masked_loss in *. cbn [policy_loss_elwise V_err_elwise is_alive_mask] in *.
  destruct (elemwise add pl ve) as [total|] eqn:Et; cbn [bind] in Hl;
    [|discriminate].
  destruct (elemwise_same_values _ _ add_primal _ _ _ _ Ppl Pve Et)
    as (total' & Et' & Ptotal).
  rewrite Et'. cbn [bind].
  apply (elemwise_same_values _ _ mul_primal _ _ _ _ Ptotal eq_refl Hl).
Qed.

(** X10.  With both flags, the derivative of the policy term of a cell is
    the derivative of the log-probability times the advantage, negated:
    for a selected probability [p > 0] with derivative [dp], it is
    [-(dp / p) * (reference - value)]; neither the reference nor the
    predicted value contributes a derivative. *)
Theorem policy_gradient_form (policy : tensor3 dual)
    (state_values : matrix dual) (actions : matrix Z)
    (is_alive : liveness dual) (reference : matrix dual) (crop_last : bool)
    (min_proba : R) (tm : terms) (b t : nat) (p dp r v : R) (dr dv : val) :
  objective_terms policy state_values actions is_alive reference crop_last
    true true min_proba = Ok tm ->
  cell (action_probas tm) b t = Some (D (Fin p) (Fin dp)) ->
  0 < p ->
  cell (reference_state_values tm) b t = Some (D (Fin r) dr) ->
  cell state_values b t = Some (D (Fin v) dv) ->
  cell (policy_loss_elwise tm) b t =
    Some (D (Fin (- ln p * (r - v))) (Fin (- (dp / p) * (r - v)))).
Proof.
  intros Ht Hp Hpos Hr Hv.
  destruct (objective_terms_spec _ _ _ _ _ _ _ _ _ Ht)
    as (_ & _ & (cropped & _ & Href) & _ & Hobs & _ & _).
  assert (Hdr : dr = Fin 0).
  { rewrite Href in Hr. apply consider_constant_cell in Hr. exact Hr. }
  subst dr.
  assert (Ho : cell (observed_state_values tm) b t = Some (D (Fin v) (Fin 0))).
  { rewrite Hobs. unfold consider_constant. rewrite cell_map_matrix, Hv.
    reflexivity. }
  assert (Hl : log_proba min_proba (D (Fin p) (Fin dp))
               = D (Fin (ln p)) (Fin (dp / p))).
  { unfold log_proba. simpl. rewrite (Rzero_neq (r:=p)) by lra.
    rewrite (Rpositive_pos Hpos). destruct (Rzero min_proba); reflexivity. }
  rewrite (policy_loss_cell _ _ _ _ _ _ _ _ _ b t Ht).
  rewrite (log_probas_cell _ _ _ _ _ _ _ _ _ b t Ht), Hp, Hr, Ho. simpl.
  rewrite Hl. simpl. do 2 f_equal. f_equal. unfold Rdiv. ring.
Qed.

(** X11.  The value term passes on the sensitivity of whatever reference it
    is given: its derivative at a cell is [2 (reference - value)] times the
    difference of the derivatives of reference and value.  Without
    [consider_value_reference_constant] and without [crop_last] the reference
    is the one given, derivative included, so the producer of the reference
    does receive a gradient. *)
Theorem value_term_sensitivity (policy : tensor3 dual)
    (state_values : matrix dual) (actions : matrix Z)
    (is_alive : liveness dual) (reference : matrix dual)
    (crop_last cvrc cpvc : bool) (min_proba : R) (tm : terms) (b t : nat)
    (r dr v dv : R) :
  objective_terms policy state_values actions is_alive reference crop_last
    cvrc cpvc min_proba = Ok tm ->
  cell (reference_state_values tm) b t = Some (D (Fin r) (Fin dr)) ->
  cell state_values b t = Some (D (Fin v) (Fin dv)) ->
  cell (V_err_elwise tm) b t =
    Some (D (Fin ((r - v) * (r - v))) (Fin (2 * (r - v) * (dr - dv)))) /\
  (crop_last = false -> cvrc = false -> reference_state_values tm = reference).
Proof.
  intros Ht Hr Hv. split.
  - rewrite (V_err_cell _ _ _ _ _ _ _ _ _ b t Ht), Hr, Hv. simpl.
    do 2 f_equal. f_equal. ring.
  - intros -> ->.
    destruct (objective_terms_spec _ _ _ _ _ _ _ _ _ Ht)
      as (_ & _ & (cropped & Hc & Href) & _).
    injection Hc as <-. exact Href.
Qed.

End FlagClaims.

(** ** Concrete runs *)

Section Runs.

Open Scope R_scope.

(** C4, as stated, fails: with [min_proba = 0] and a selected probability 0
    the logarithm is not finite, and the product with the liveness 0 is not
    0. *)
Lemma dead_cell_loss_not_zero :
  get_elementwise_objective [[[Fin 0; Fin 1]]] [[Fin 0]] [[0%Z]] [[Fin 1]]
    (Mask [[Fin 0]]) None None (Gamma 0.99) true true Zeros true true 0
    = Ok [[NonFin]] /\
  cell [[Fin 0]] 0 0 = Some (Fin 0) /\
  cell [[NonFin]] 0 0 <> Some (Fin 0).
Proof.
  split; [|split].
  - eval_val. reflexivity.
  - reflexivity.
  - discriminate.
Qed.

(** C9.  The docstring has [crop_last] zero the loss at the final tick; with
    [crop_last], [min_proba = 0] and a selected probability 0 the code
    returns a non-finite loss at the last column instead. *)
Lemma crop_last_loss_not_zero :
  get_elementwise_objective [[[Fin 0; Fin 1]]] [[Fin 0]] [[0%Z]] [[Fin 1]]
    Always None None (Gamma 0.99) true true Zeros true true 0
    = Ok [[NonFin]] /\
  cell [[NonFin]] 0 0 <> Some (Fin 0).
Proof.
  split; [|discriminate]. eval_val. reflexivity.
Qed.

(** C6, as stated, fails: a positive [min_proba] too small for [floatX] is
    added as 0, and at a selected probability 0 the logarithm is not
    finite. *)
Lemma tiny_min_proba_not_finite :
  0 < floatX_tiny /\
  exists tm,
    objective_terms [[[Fin 0; Fin 1]]] [[Fin 2]] [[0%Z]] Always [[Fin 5]]
      false true true floatX_tiny = Ok tm /\
    cell (action_probas tm) 0 0 = Some (Fin 0) /\
    cell (log_probas tm) 0 0 = Some NonFin.
Proof.
  split; [apply floatX_tiny_pos|].
  eexists. split; [eval_val; reflexivity|]. split; [reflexivity|].
  cbn. unfold log_proba.
  rewrite (Rzero_neq (r:=floatX_tiny))
    by (pose proof floatX_tiny_pos; lra).
  cbn. rewrite ?Rzero_0, ?floatX_underflow. cbn.
  rewrite ?floatX_underflow, Rpositive_nonpos by lra. reflexivity.
Qed.

Lemma concrete_scenario_witness :
  exists tm,
    objective_terms [[[Fin 1]; [Fin 1]; [Fin 1]]] [[Fin 0; Fin 0; Fin 0]]
      [[0%Z; 0%Z; 0%Z]] Always [[Fin 2.71; Fin 1.9; Fin 1]] true true true 0
      = Ok tm /\
    reference_state_values tm = [[Fin 2.71; Fin 1.9; Fin 0]] /\
    cell (V_err_elwise tm) 0 2 = Some (Fin 0).
Proof.
  eexists. split; [eval_val; reflexivity|].
  destruct concrete_scenario as (_ & _ & Hcrop).
  apply (Hcrop [[[Fin 1]; [Fin 1]; [Fin 1]]] [[0%Z; 0%Z; 0%Z]] true true 0).
  eval_val. reflexivity.
Defined.


Lemma forced_values_after_end_witness :
  exists recurrence forced,
    get_n_step_value_reference [[Fin 0; Fin 0]] [[Fin 1; Fin 2]]
      (Mask [[Fin 1; Fin 0]]) None Zeros (Gamma 0.5) = Ok recurrence /\
    reference_values [[Fin 0; Fin 0]] [[Fin 1; Fin 2]] (Mask [[Fin 1; Fin 0]])
      None None (Gamma 0.5) true Zeros = Ok forced /\
    exists r, cell [[Fin 1; Fin 2]] 0 0 = Some r /\ cell forced 0 0 = Some r.
Proof.
  assert (Hrec : exists recurrence,
            get_n_step_value_reference [[Fin 0; Fin 0]] [[Fin 1; Fin 2]]
              (Mask [[Fin 1; Fin 0]]) None Zeros (Gamma 0.5) = Ok recurrence).
  { eexists. eval_val. reflexivity. }
  assert (Hf : exists forced,
            reference_values [[Fin 0; Fin 0]] [[Fin 1; Fin 2]]
              (Mask [[Fin 1; Fin 0]]) None None (Gamma 0.5) true Zeros
              = Ok forced).
  { eexists. eval_val. reflexivity. }
  destruct Hrec as [recurrence Hrec]. destruct Hf as [forced Hf].
  exists recurrence, forced. split; [exact Hrec|]. split; [exact Hf|].
  pose proof (@forced_values_after_end [[Fin 0; Fin 0]] [[Fin 1; Fin 2]]
                [[Fin 1; Fin 0]] None None (Gamma 0.5) Zeros recurrence
                forced 0 0 (Fin 1) Hrec Hf eq_refl) as W.
  cbn [cell nth_error vis_zero] in W.
  rewrite Rzero_0, Rzero_neq in W by lra.
  exact W.
Defined.

Lemma dead_cell_loss_zero_witness :
  exists loss,
    get_elementwise_objective [[[Fin 0.5; Fin 0.5]]] [[Fin 0]] [[0%Z]]
      [[Fin 1]] (Mask [[Fin 0]]) None None (Gamma 0.99) false true Zeros
      true true 0 = Ok loss /\
    cell loss 0 0 = Some (Fin 0).
Proof.
  eexists. split; [eval_val; reflexivity|].
  eapply (@dead_cell_loss_zero [[[Fin 0.5; Fin 0.5]]] [[Fin 0]] [[0%Z]]
            [[Fin 1]] [[Fin 0]] None None (Gamma 0.99) false true Zeros
            true true 0).
  - eval_val. reflexivity.
  - eval_val. reflexivity.
  - eval_val. reflexivity.
  - reflexivity.
  - reflexivity.
  - reflexivity.
Defined.

Lemma crop_last_value_term_zero_witness :
  exists tm,
    objective_terms [[[Fin 1]]] [[Fin 3]] [[0%Z]] Always [[Fin 5]] true
      true true 0 = Ok tm /\
    cell (reference_state_values tm) 0 0 = Some (Fin 3) /\
    cell (V_err_elwise tm) 0 0 = Some (Fin 0).
Proof.
  eexists. split; [eval_val; reflexivity|].
  refine (@crop_last_value_term_zero [[[Fin 1]]] [[Fin 3]] [[0%Z]] Always
            [[Fin 5]] true true 0 _ 0 [Fin 3] 3 _ _ _);
    [eval_val; reflexivity | reflexivity | reflexivity].
Defined.

Lemma log_proba_stabilised_witness :
  exists loss loss0,
    get_elementwise_objective [[[Fin 0.5; Fin 0.5]]] [[Fin 2]] [[1%Z]]
      [[Fin 1]] Always None None (Gamma 0.99) false true Zeros true true
      0.001 = Ok loss /\
    get_elementwise_objective [[[Fin 0.5; Fin 0.5]]] [[Fin 2]] [[1%Z]]
      [[Fin 1]] Always None None (Gamma 0.99) false true Zeros true true
      0 = Ok loss0 /\
    cell loss 0 0 = cell loss0 0 0.
Proof.
  assert (Hrun : exists loss,
            get_elementwise_objective [[[Fin 0.5; Fin 0.5]]] [[Fin 2]] [[1%Z]]
              [[Fin 1]] Always None None (Gamma 0.99) false true Zeros
              true true 0.001 = Ok loss).
  { eexists. eval_val. reflexivity. }
  destruct Hrun as [loss Hloss].
  destruct (log_proba_stabilised _ _ _ _ _ _ _ _ _ _ _ _ _ _ Hloss)
    as (reference & tm & loss0 & _ & Ht & Hloss0 & Hcells).
  exists loss, loss0. split; [exact Hloss|]. split; [exact Hloss0|].
  destruct (objective_terms_spec _ _ _ _ _ _ _ _ _ Ht) as (_ & Hq & _).
  apply (Hcells 0%nat 0%nat (Fin 0.5)).
  - cbn in Hq. injection Hq as <-. reflexivity.
  - apply Rzero_neq. lra.
Defined.

Lemma non_positive_n_steps_rejected_witness :
  (0 <= 0)%Z /\
  get_elementwise_objective [[[Fin 1]]] [[Fin 0]] [[0%Z]] [[Fin 1]] Always
    None (Some 0%Z) (Gamma 0.99) true true Zeros true true 0
    = Err InvalidConfiguration.
Proof.
  split; [lia|]. apply non_positive_n_steps_rejected. lia.
Defined.

Lemma crop_last_loss_zero_witness :
  exists loss,
    get_elementwise_objective [[[Fin 0.5; Fin 0.5]]] [[Fin 2]] [[1%Z]]
      [[Fin 1]] Always None None (Gamma 0.99) true true Zeros true true 0
      = Ok loss /\
    cell loss 0 0 = Some (Fin 0).
Proof.
  eexists. split; [eval_val; reflexivity|].
  refine (@crop_last_loss_zero [[[Fin 0.5; Fin 0.5]]] [[Fin 2]] [[1%Z]]
            [[Fin 1]] Always None None (Gamma 0.99) true Zeros true true 0
            [[Fin 0.5]] _ 0 [Fin 2] 2 0.5 _ _ _ _ _ _ _).
  - eval_val. reflexivity.
  - reflexivity.
  - reflexivity.
  - reflexivity.
  - reflexivity.
  - left. lra.
  - intros alive Ha. discriminate.
Defined.

Lemma crop_last_after_terminal_override_witness :
  exists reference tm v,
    reference_values [[Fin 2]] [[Fin 1]] (Mask [[Fin 1]]) None None
      (Gamma 0.99) true Zeros = Ok reference /\
    cell reference 0 0 = Some (Fin 1) /\
    objective_terms [[[Fin 1]]] [[Fin 2]] [[0%Z]] (Mask [[Fin 1]]) reference
      true true true 0 = Ok tm /\
    nth_error [Fin 2] 0 = Some v /\
    cell (reference_state_values tm) 0 0 = Some v.
Proof.
  assert (Hr : reference_values [[Fin 2]] [[Fin 1]] (Mask [[Fin 1]]) None None
                 (Gamma 0.99) true Zeros = Ok [[Fin 1]]).
  { eval_val. reflexivity. }
  assert (Ht : exists tm,
            objective_terms [[[Fin 1]]] [[Fin 2]] [[0%Z]] (Mask [[Fin 1]])
              [[Fin 1]] true true true 0 = Ok tm).
  { eexists. eval_val. reflexivity. }
  destruct Ht as [tm Ht].
  destruct (@crop_last_after_terminal_override [[[Fin 1]]] [[Fin 2]] [[0%Z]]
              [[Fin 1]] [[Fin 1]] None None (Gamma 0.99) Zeros true true 0
              [[Fin 1]] tm 0 [Fin 2] Hr Ht eq_refl) as (v & Hv & Hc & _).
  exists [[Fin 1]], tm, v. repeat split; assumption.
Defined.

Lemma gradient_blocking_witness :
  exists tm,
    objective_terms [[[D (Fin 1) (Fin 0)]]] [[D (Fin 2) (Fin 1)]] [[0%Z]]
      Always [[D (Fin 5) (Fin 7)]] false true true 0 = Ok tm /\
    objective_terms [[[D (Fin 1) (Fin 0)]]] [[D (Fin 2) (Fin 1)]] [[0%Z]]
      Always [[D (Fin 5) (Fin 0)]] false true true 0 = Ok tm /\
    cell (V_err_elwise tm) 0 0 =
      Some (D (Fin ((5 - 2) * (5 - 2))) (Fin (-2 * (5 - 2) * 1))) /\
    -2 * (5 - 2) * 1 <> 0.
Proof.
  destruct gradient_blocking as (Href & Hverr & _ & _).
  assert (Ht : exists tm,
            objective_terms [[[D (Fin 1) (Fin 0)]]] [[D (Fin 2) (Fin 1)]]
              [[0%Z]] Always [[D (Fin 5) (Fin 7)]] false true true 0 = Ok tm
            /\ cell (reference_state_values tm) 0 0 = Some (D (Fin 5) (Fin 0))).
  { eexists. split; [eval_val; reflexivity | reflexivity]. }
  destruct Ht as (tm & Ht & Hr).
  exists tm. split; [exact Ht|]. split.
  - apply (Href _ _ _ _ [[D (Fin 5) (Fin 7)]] [[D (Fin 5) (Fin 0)]]);
      [reflexivity | exact Ht].
  - destruct (Hverr _ _ _ _ _ _ _ _ tm 0%nat 0%nat 5 (Fin 0) 2 1 Ht Hr eq_refl)
      as (_ & Hv & Hnz).
    split; [exact Hv | apply Hnz; lra].
Defined.

End Runs.

Section MoreRuns.

Open Scope R_scope.

Lemma terminal_override_idempotent_witness :
  exists forced,
    terminal_override [[Fin 1; Fin 2]] [[Fin 1; Fin 0]] (Gamma 0.5)
      (AfterEnd [[Fin 4]]) [[Fin 7; Fin 8]] = Ok forced /\
    terminal_override [[Fin 1; Fin 2]] [[Fin 1; Fin 0]] (Gamma 0.5)
      (AfterEnd [[Fin 4]]) forced = Ok forced.
Proof.
  assert (Hrun : exists forced,
            terminal_override [[Fin 1; Fin 2]] [[Fin 1; Fin 0]] (Gamma 0.5)
              (AfterEnd [[Fin 4]]) [[Fin 7; Fin 8]] = Ok forced).
  { eexists. unfold terminal_override. eval_val. reflexivity. }
  destruct Hrun as [forced Hf]. exists forced. split; [exact Hf|].
  apply (terminal_override_idempotent _ _ _ _ _ Hf).
Defined.

Lemma loss_shape_witness :
  exists loss,
    get_elementwise_objective [[[Fin 0.5; Fin 0.5]; [Fin 1; Fin 0]]]
      [[Fin 2; Fin 3]] [[1%Z; 0%Z]] [[Fin 1; Fin 1]] (Mask [[Fin 1; Fin 0]])
      None None (Gamma 0.99) true true Zeros true true 0 = Ok loss /\
    shape loss = [2%nat].
Proof.
  eexists. split; [eval_val; reflexivity|].
  refine (proj1 (@loss_shape val _ [[[Fin 0.5; Fin 0.5]; [Fin 1; Fin 0]]]
                   [[Fin 2; Fin 3]] [[1%Z; 0%Z]] [[Fin 1; Fin 1]]
                   (Mask [[Fin 1; Fin 0]]) None None (Gamma 0.99) true true
                   Zeros true true 0 _ _)).
  eval_val. reflexivity.
Defined.

Lemma crop_last_keeps_other_columns_witness :
  exists tm,
    objective_terms [[[Fin 1]; [Fin 1]]] [[Fin 2; Fin 3]] [[0%Z; 0%Z]] Always
      [[Fin 5; Fin 6]] true true true 0 = Ok tm /\
    cell (reference_state_values tm) 0 0 = Some (Fin 5).
Proof.
  eexists. split; [eval_val; reflexivity|].
  refine (proj1 (@crop_last_keeps_other_columns val _ [[[Fin 1]; [Fin 1]]]
                   [[Fin 2; Fin 3]] [[0%Z; 0%Z]] Always [[Fin 5; Fin 6]]
                   true true 0 _ 0 0 [Fin 5; Fin 6] _ eq_refl _)).
  - eval_val. reflexivity.
  - simpl. lia.
Defined.

Lemma crop_last_needs_a_column_witness :
  exists tm,
    objective_terms [[[Fin 1]]] [[Fin 3]] [[0%Z]] Always [[Fin 5]] true
      true true 0 = Ok tm /\
    [Fin 3] <> [].
Proof.
  eexists. split; [eval_val; reflexivity|].
  refine (@crop_last_needs_a_column val _ [[[Fin 1]]] [[Fin 3]] [[0%Z]]
            Always [[Fin 5]] true true 0 _ [Fin 3] _ _).
  - eval_val. reflexivity.
  - left. reflexivity.
Defined.

Lemma loss_cell_formula_witness :
  exists loss,
    get_elementwise_objective [[[Fin 0.5; Fin 0.5]]] [[Fin 2]] [[1%Z]]
      [[Fin 1]] Always None None (Gamma 0.99) false true Zeros true true 0
      = Ok loss /\
    cell loss 0 0 =
      Some (vmul (vadd (vmul (vneg (log_proba 0 (Fin 0.5)))
                          (vsub (Fin (1 + 0.99 * 0)) (Fin 2)))
                       (vmul (vsub (Fin 2) (Fin (1 + 0.99 * 0)))
                             (vsub (Fin 2) (Fin (1 + 0.99 * 0)))))
                 (Fin 1)).
Proof.
  assert (Hrun : exists loss,
            get_elementwise_objective [[[Fin 0.5; Fin 0.5]]] [[Fin 2]] [[1%Z]]
              [[Fin 1]] Always None None (Gamma 0.99) false true Zeros
              true true 0 = Ok loss).
  { eexists. eval_val. reflexivity. }
  destruct Hrun as [loss Hloss]. exists loss. split; [exact Hloss|].
  destruct (loss_cell_formula _ _ _ _ _ _ _ _ _ _ _ _ _ _ Hloss)
    as (reference & tm & Hr & Ht & Hcell).
  revert Hr. eval_val. intros Hr. injection Hr as <-.
  revert Ht. eval_val. intros Ht. injection Ht as <-.
  rewrite (Hcell 0%nat 0%nat). eval_val. reflexivity.
Defined.

Lemma policy_term_not_finite_witness :
  exists tm,
    objective_terms [[[Fin 0; Fin 1]]] [[Fin 2]] [[0%Z]] Always [[Fin 5]]
      false true true floatX_tiny = Ok tm /\
    cell (policy_loss_elwise tm) 0 0 <> Some (Fin 0).
Proof.
  assert (Hrun : exists tm,
            objective_terms [[[Fin 0; Fin 1]]] [[Fin 2]] [[0%Z]] Always
              [[Fin 5]] false true true floatX_tiny = Ok tm /\
            cell (action_probas tm) 0 0 = Some (Fin 0)).
  { eexists. split; [eval_val; reflexivity | reflexivity]. }
  destruct Hrun as (tm & Ht & Hp). exists tm. split; [exact Ht|].
  apply (@policy_term_not_finite _ _ _ _ _ _ _ _ _ tm 0%nat 0%nat 0 0 Ht Hp).
  right. split; [reflexivity|]. rewrite floatX_underflow. lra.
Defined.

Lemma value_term_nonnegative_witness :
  exists tm,
    objective_terms [[[Fin 1]]] [[Fin 2]] [[0%Z]] Always [[Fin 5]]
      false true true 0 = Ok tm /\
    (forall e, cell (V_err_elwise tm) 0 0 = Some (Fin e) -> 0 <= e).
Proof.
  eexists. split; [eval_val; reflexivity|].
  refine (proj1 (@value_term_nonnegative [[[Fin 1]]] [[Fin 2]] [[0%Z]] Always
                   [[Fin 5]] false true true 0 _ 0 0 _)).
  eval_val. reflexivity.
Defined.

Lemma flags_keep_values_witness :
  exists loss loss',
    get_elementwise_objective [[[D (Fin 1) (Fin 0)]]] [[D (Fin 2) (Fin 1)]]
      [[0%Z]] [[D (Fin 1) (Fin 0)]] Always None None (Gamma 0.5) false true
      Zeros true true 0 = Ok loss /\
    get_elementwise_objective [[[D (Fin 1) (Fin 0)]]] [[D (Fin 2) (Fin 1)]]
      [[0%Z]] [[D (Fin 1) (Fin 0)]] Always None None (Gamma 0.5) false true
      Zeros false false 0 = Ok loss' /\
    map_matrix primal loss = map_matrix primal loss'.
Proof.
  assert (Hrun : exists loss,
            get_elementwise_objective [[[D (Fin 1) (Fin 0)]]]
              [[D (Fin 2) (Fin 1)]] [[0%Z]] [[D (Fin 1) (Fin 0)]] Always None
              None (Gamma 0.5) false true Zeros true true 0 = Ok loss).
  { eexists. eval_val. reflexivity. }
  destruct Hrun as [loss Hloss].
  destruct (@flags_keep_values _ _ _ _ _ _ _ _ _ _ _ true true false false
              _ _ Hloss) as (loss' & Hloss' & Hsame).
  exists loss, loss'. repeat split; assumption.
Defined.

Lemma policy_gradient_form_witness :
  exists tm,
    objective_terms [[[D (Fin 0.5) (Fin 1)]]] [[D (Fin 2) (Fin 1)]] [[0%Z]]
      Always [[D (Fin 5) (Fin 7)]] false true true 0 = Ok tm /\
    cell (policy_loss_elwise tm) 0 0 =
      Some (D (Fin (- ln 0.5 * (5 - 2))) (Fin (- (1 / 0.5) * (5 - 2)))).
Proof.
  eexists. split; [eval_val; reflexivity|].
  refine (@policy_gradient_form [[[D (Fin 0.5) (Fin 1)]]]
            [[D (Fin 2) (Fin 1)]] [[0%Z]] Always [[D (Fin 5) (Fin 7)]] false
            0 _ 0 0 0.5 1 5 2 (Fin 0) (Fin 1) _ _ _ _ _).
  - eval_val. reflexivity.
  - reflexivity.
  - lra.
  - reflexivity.
  - reflexivity.
Defined.

Lemma value_term_sensitivity_witness :
  exists tm,
    objective_terms [[[D (Fin 1) (Fin 0)]]] [[D (Fin 2) (Fin 1)]] [[0%Z]]
      Always [[D (Fin 5) (Fin 7)]] false false true 0 = Ok tm /\
    cell (V_err_elwise tm) 0 0 =
      Some (D (Fin ((5 - 2) * (5 - 2))) (Fin (2 * (5 - 2) * (7 - 1)))).
Proof.
  eexists. split; [eval_val; reflexivity|].
  refine (proj1 (@value_term_sensitivity [[[D (Fin 1) (Fin 0)]]]
                   [[D (Fin 2) (Fin 1)]] [[0%Z]] Always [[D (Fin 5) (Fin 7)]]
                   false false true 0 _ 0 0 5 7 2 1 _ _ _)).
  - eval_val. reflexivity.
  - reflexivity.
  - reflexivity.
Defined.

End MoreRuns.
